(** * Thesia: the spectrogram engine ([spec.py]) and the batch upload
      path of the viewer ([main.py])

    The engine is a Python object whose attributes are either integers
    derived from the analysis parameters or numpy arrays produced by numpy
    and librosa.  The numeric library is not part of the repository: it is
    kept abstract here, as an oracle [run] from a library call to its
    result ([None] when the call raises).  What is embedded from the source
    is everything around those calls: the integer derivations, the order of
    the attribute assignments, the guards of the setters, the exceptions of
    Python's own arithmetic and the log of the library calls each method
    performs.

    Numbers.  Python's [round] on a float rounds half to even; it is
    modelled on exact rationals ([py_round]).  [int(2**np.ceil(np.log2(n)))]
    is modelled with the exact integer logarithm.  Both agree with the
    float computation for every window length an audio file can produce
    (below 2^47 samples, [float_exact]); from 2^49 + 1 samples on the
    float logarithm of the code rounds down to the power of two below.
    The theorems that state a value of the FFT size assume a window in
    that range. *)

From Stdlib Require Import String DecimalString.
From Stdlib Require Import ZArith QArith List Bool Lia.
Import ListNotations.

#[local] Set Warnings "-register-all".
#[local] Set Default Proof Using "Type".

Open Scope Z_scope.

(** ** Python arithmetic *)

Inductive exn : Type :=
| ZeroDivisionError   (* [a / 0] *)
| ValueError          (* [int(nan)]; unpacking an empty iterable *)
| AttributeError      (* reading an attribute that was never assigned *)
| LibraryError.       (* raised inside numpy, librosa or soundfile *)

Inductive outcome (A : Type) : Type :=
| Ret (a : A)
| Raise (e : exn).
Arguments Ret {A} a.
Arguments Raise {A} e.

(** [round(x)] with one argument: the nearest integer, ties to the even
    one. *)
Definition py_round (x : Q) : Z :=
  let n := Qnum x in
  let d := Zpos (Qden x) in
  let q := n / d in
  match (2 * (n mod d) ?= d) with
  | Lt => q
  | Gt => q + 1
  | Eq => if Z.even q then q else q + 1
  end.

(** [a / b], true division. *)
Definition py_truediv (a b : Q) : outcome Q :=
  if Qeq_bool b 0 then Raise ZeroDivisionError else Ret (a / b)%Q.

(** [round(a / b)] *)
Definition round_div (a b : Q) : outcome Z :=
  match py_truediv a b with
  | Ret q => Ret (py_round q)
  | Raise e => Raise e
  end.

(** [int(2**np.ceil(np.log2(win_length)))]: [np.log2] of a negative number
    is nan and [int(nan)] raises; [np.log2(0)] is [-inf] and [2**-inf] is
    [0.0].  For a positive window the logarithm is taken exactly, which is
    what the float64 [np.log2] of the code gives for windows below 2^47
    samples ([float_exact]); beyond that the two part, and nothing is
    stated here about the value. *)
Definition n_fft_of (win_length : Z) : outcome Z :=
  if win_length <? 0 then Raise ValueError
  else if win_length =? 0 then Ret 0
  else Ret (2 ^ Z.log2_up win_length).

(** The window lengths for which the float logarithm is the exact one. *)
Definition float_exact (win_length : Z) : Prop := win_length < 2 ^ 47.

(** [round(self._sr * win_ms / 1000)] *)
Definition win_length_of (sr : Z) (win_ms : Q) : Z :=
  py_round (inject_Z sr * win_ms / 1000)%Q.

Section Engine.

(** ** The numeric library *)

(** Values of numpy arrays, and the one property of them the engine itself
    inspects ([wav.ndim]). *)
Variable Arr : Type.
Variable ndim : Arr -> nat.

(** The library calls of [spec.py], with their arguments. *)
Inductive call : Type :=
| np_mean_axis1 (wav : Arr)                               (* wav.mean(axis=1) *)
| librosa_stft (y : Arr) (n_fft hop_length win_length : Z)
| np_abs (x : Arr)
| np_scale (x : Arr) (c : Q)                              (* x * c *)
| librosa_amplitude_to_db (amp : Arr) (floor_db : Z)
| np_time_axis (spec : Arr) (hop_length sr : Z)
    (* np.arange(spec.shape[1]) * hop_length / sr *)
| np_linspace (stop num : Z)                              (* np.linspace(0, stop, num=num) *)
| np_tile_freq_expr (f_axis t_axis : Arr)
    (* np.tile(np.array(_freq_expr(f_axis))[:, np.newaxis], (1, len(t_axis))) *)
| librosa_filters_mel (sr n_fft n_mel : Z)
| np_matmul (a b : Arr)                                   (* a @ b *)
| librosa_mel_frequencies (n_mel fmax : Z).

(** What the library answers; [None] when the call raises. *)
Variable run : call -> option Arr.

(** ** Objects and the store *)

(** An array object: its identity (as Python's [id]) and its value.  The
    engine never writes into an array, so the value of an object is fixed
    when it is allocated. *)
Record obj : Type := Obj { oid : nat; val : Arr }.

(** The store: the next free identity and the log of library calls. *)
Record store : Type := Store { next_id : nat; trace : list call }.

(** The attributes of a [Spectrogram].  The spectral products are unset
    ([None]) until [_update_linear] assigns them for the first time. *)
Record Spectrogram : Type := {
  _wav : obj;
  _sr : Z;
  _win_length : Z;
  _hop_length : Z;
  _n_fft : Z;
  _n_mel : Z;
  _floor_db : Z;
  _spec : option obj;
  linear : option obj;
  t_axis : option obj;
  f_linear_axis : option obj;
  f_linear_axis_str : option obj;
  mel : option obj;
  f_mel_axis : option obj;
  f_mel_axis_str : option obj
}.

Record world : Type := World { self : Spectrogram; mem : store }.

(** Attribute assignments, [self.x = v]. *)
Definition with_win_length (v : Z) (s : Spectrogram) : Spectrogram :=
  {| _wav := _wav s; _sr := _sr s; _win_length := v;
     _hop_length := _hop_length s; _n_fft := _n_fft s; _n_mel := _n_mel s;
     _floor_db := _floor_db s; _spec := _spec s; linear := linear s;
     t_axis := t_axis s; f_linear_axis := f_linear_axis s;
     f_linear_axis_str := f_linear_axis_str s; mel := mel s;
     f_mel_axis := f_mel_axis s; f_mel_axis_str := f_mel_axis_str s |}.

Definition with_hop_length (v : Z) (s : Spectrogram) : Spectrogram :=
  {| _wav := _wav s; _sr := _sr s; _win_length := _win_length s;
     _hop_length := v; _n_fft := _n_fft s; _n_mel := _n_mel s;
     _floor_db := _floor_db s; _spec := _spec s; linear := linear s;
     t_axis := t_axis s; f_linear_axis := f_linear_axis s;
     f_linear_axis_str := f_linear_axis_str s; mel := mel s;
     f_mel_axis := f_mel_axis s; f_mel_axis_str := f_mel_axis_str s |}.

Definition with_n_fft (v : Z) (s : Spectrogram) : Spectrogram :=
  {| _wav := _wav s; _sr := _sr s; _win_length := _win_length s;
     _hop_length := _hop_length s; _n_fft := v; _n_mel := _n_mel s;
     _floor_db := _floor_db s; _spec := _spec s; linear := linear s;
     t_axis := t_axis s; f_linear_axis := f_linear_axis s;
     f_linear_axis_str := f_linear_axis_str s; mel := mel s;
     f_mel_axis := f_mel_axis s; f_mel_axis_str := f_mel_axis_str s |}.

Definition with_n_mel (v : Z) (s : Spectrogram) : Spectrogram :=
  {| _wav := _wav s; _sr := _sr s; _win_length := _win_length s;
     _hop_length := _hop_length s; _n_fft := _n_fft s; _n_mel := v;
     _floor_db := _floor_db s; _spec := _spec s; linear := linear s;
     t_axis := t_axis s; f_linear_axis := f_linear_axis s;
     f_linear_axis_str := f_linear_axis_str s; mel := mel s;
     f_mel_axis := f_mel_axis s; f_mel_axis_str := f_mel_axis_str s |}.

Definition with_spec (v : obj) (s : Spectrogram) : Spectrogram :=
  {| _wav := _wav s; _sr := _sr s; _win_length := _win_length s;
     _hop_length := _hop_length s; _n_fft := _n_fft s; _n_mel := _n_mel s;
     _floor_db := _floor_db s; _spec := Some v; linear := linear s;
     t_axis := t_axis s; f_linear_axis := f_linear_axis s;
     f_linear_axis_str := f_linear_axis_str s; mel := mel s;
     f_mel_axis := f_mel_axis s; f_mel_axis_str := f_mel_axis_str s |}.

Definition with_linear (v : obj) (s : Spectrogram) : Spectrogram :=
  {| _wav := _wav s; _sr := _sr s; _win_length := _win_length s;
     _hop_length := _hop_length s; _n_fft := _n_fft s; _n_mel := _n_mel s;
     _floor_db := _floor_db s; _spec := _spec s; linear := Some v;
     t_axis := t_axis s; f_linear_axis := f_linear_axis s;
     f_linear_axis_str := f_linear_axis_str s; mel := mel s;
     f_mel_axis := f_mel_axis s; f_mel_axis_str := f_mel_axis_str s |}.

Definition with_t_axis (v : obj) (s : Spectrogram) : Spectrogram :=
  {| _wav := _wav s; _sr := _sr s; _win_length := _win_length s;
     _hop_length := _hop_length s; _n_fft := _n_fft s; _n_mel := _n_mel s;
     _floor_db := _floor_db s; _spec := _spec s; linear := linear s;
     t_axis := Some v; f_linear_axis := f_linear_axis s;
     f_linear_axis_str := f_linear_axis_str s; mel := mel s;
     f_mel_axis := f_mel_axis s; f_mel_axis_str := f_mel_axis_str s |}.

Definition with_f_linear_axis (v : obj) (s : Spectrogram) : Spectrogram :=
  {| _wav := _wav s; _sr := _sr s; _win_length := _win_length s;
     _hop_length := _hop_length s; _n_fft := _n_fft s; _n_mel := _n_mel s;
     _floor_db := _floor_db s; _spec := _spec s; linear := linear s;
     t_axis := t_axis s; f_linear_axis := Some v;
     f_linear_axis_str := f_linear_axis_str s; mel := mel s;
     f_mel_axis := f_mel_axis s; f_mel_axis_str := f_mel_axis_str s |}.

Definition with_f_linear_axis_str (v : obj) (s : Spectrogram) : Spectrogram :=
  {| _wav := _wav s; _sr := _sr s; _win_length := _win_length s;
     _hop_length := _hop_length s; _n_fft := _n_fft s; _n_mel := _n_mel s;
     _floor_db := _floor_db s; _spec := _spec s; linear := linear s;
     t_axis := t_axis s; f_linear_axis := f_linear_axis s;
     f_linear_axis_str := Some v; mel := mel s;
     f_mel_axis := f_mel_axis s; f_mel_axis_str := f_mel_axis_str s |}.

Definition with_mel (v : obj) (s : Spectrogram) : Spectrogram :=
  {| _wav := _wav s; _sr := _sr s; _win_length := _win_length s;
     _hop_length := _hop_length s; _n_fft := _n_fft s; _n_mel := _n_mel s;
     _floor_db := _floor_db s; _spec := _spec s; linear := linear s;
     t_axis := t_axis s; f_linear_axis := f_linear_axis s;
     f_linear_axis_str := f_linear_axis_str s; mel := Some v;
     f_mel_axis := f_mel_axis s; f_mel_axis_str := f_mel_axis_str s |}.

Definition with_f_mel_axis (v : obj) (s : Spectrogram) : Spectrogram :=
  {| _wav := _wav s; _sr := _sr s; _win_length := _win_length s;
     _hop_length := _hop_length s; _n_fft := _n_fft s; _n_mel := _n_mel s;
     _floor_db := _floor_db s; _spec := _spec s; linear := linear s;
     t_axis := t_axis s; f_linear_axis := f_linear_axis s;
     f_linear_axis_str := f_linear_axis_str s; mel := mel s;
     f_mel_axis := Some v; f_mel_axis_str := f_mel_axis_str s |}.

Definition with_f_mel_axis_str (v : obj) (s : Spectrogram) : Spectrogram :=
  {| _wav := _wav s; _sr := _sr s; _win_length := _win_length s;
     _hop_length := _hop_length s; _n_fft := _n_fft s; _n_mel := _n_mel s;
     _floor_db := _floor_db s; _spec := _spec s; linear := linear s;
     t_axis := t_axis s; f_linear_axis := f_linear_axis s;
     f_linear_axis_str := f_linear_axis_str s; mel := mel s;
     f_mel_axis := f_mel_axis s; f_mel_axis_str := Some v |}.

(** ** The method monad: state and exceptions *)

(** A method body runs on the world and either returns or raises; in both
    cases the world it leaves behind is part of the result, because an
    exception does not undo the assignments made before it. *)
Definition M (A : Type) : Type := world -> outcome A * world.

Definition ret {A} (a : A) : M A := fun w => (Ret a, w).
Definition raise {A} (e : exn) : M A := fun w => (Raise e, w).
Definition bind {A B} (m : M A) (k : A -> M B) : M B :=
  fun w => match m w with
           | (Ret a, w') => k a w'
           | (Raise e, w') => (Raise e, w')
           end.

Notation "x <- m ;; k" := (bind m (fun x => k))
  (at level 61, m at next level, right associativity).
Notation "m ;; k" := (bind m (fun _ => k))
  (at level 61, right associativity).

(** [self.x] for an attribute that always exists. *)
Definition rd {A} (f : Spectrogram -> A) : M A := fun w => (Ret (f (self w)), w).
(** [self.x] for a spectral product. *)
Definition attr (f : Spectrogram -> option obj) : M obj :=
  fun w => match f (self w) with
           | Some o => (Ret o, w)
           | None => (Raise AttributeError, w)
           end.
(** [self.x = v] *)
Definition wr (upd : Spectrogram -> Spectrogram) : M unit :=
  fun w => (Ret tt, World (upd (self w)) (mem w)).
(** The result of Python arithmetic that may raise. *)
Definition lift {A} (r : outcome A) : M A := fun w => (r, w).

(** A library call: it is logged, and its result, if any, is a new
    object. *)
Definition lib_call (c : call) (m : store) : outcome obj * store :=
  match run c with
  | Some a => (Ret (Obj (next_id m) a), Store (S (next_id m)) (trace m ++ [c]))
  | None => (Raise LibraryError, Store (next_id m) (trace m ++ [c]))
  end.

Definition lib (c : call) : M obj :=
  fun w => let (r, m) := lib_call c (mem w) in (r, World (self w) m).

(** ** [class Spectrogram] *)

Definition _amp_to_db (amp : obj) : M obj :=
  floor_db <- rd _floor_db ;;
  lib (librosa_amplitude_to_db (val amp) floor_db).

Definition _update_mel : M unit :=
  sr <- rd _sr ;;
  n_fft <- rd _n_fft ;;
  n_mel <- rd _n_mel ;;
  fb <- lib (librosa_filters_mel sr n_fft n_mel) ;;
  spec <- attr _spec ;;
  _mel <- lib (np_matmul (val fb) (val spec)) ;;
  db <- _amp_to_db _mel ;;
  wr (with_mel db) ;;
  n_mel <- rd _n_mel ;;
  sr <- rd _sr ;;
  ax <- lib (librosa_mel_frequencies n_mel (sr / 2)) ;;
  wr (with_f_mel_axis ax) ;;
  t <- attr t_axis ;;
  lab <- lib (np_tile_freq_expr (val ax) (val t)) ;;
  wr (with_f_mel_axis_str lab).

Definition _update_linear : M unit :=
  wav <- rd _wav ;;
  n_fft <- rd _n_fft ;;
  hop_length <- rd _hop_length ;;
  win_length <- rd _win_length ;;
  X <- lib (librosa_stft (val wav) n_fft hop_length win_length) ;;
  mag <- lib (np_abs (val X)) ;;
  sr <- rd _sr ;;
  c <- lift (py_truediv 1024 (inject_Z win_length)) ;;
  spec <- lib (np_scale (val mag) (c * inject_Z sr / 48000)%Q) ;;
  wr (with_spec spec) ;;
  db <- _amp_to_db spec ;;
  wr (with_linear db) ;;
  t <- lib (np_time_axis (val spec) hop_length sr) ;;
  wr (with_t_axis t) ;;
  f <- lib (np_linspace (sr / 2) (n_fft / 2 + 1)) ;;
  wr (with_f_linear_axis f) ;;
  lab <- lib (np_tile_freq_expr (val f) (val t)) ;;
  wr (with_f_linear_axis_str lab) ;;
  _update_mel.

(** [Spectrogram(wav, sr, win_ms, overlap, n_mel)].  When [__init__] raises
    no object comes into being, so only the store is returned with the
    outcome. *)
Definition __init__ (wav : obj) (sr : Z) (win_ms overlap : Q) (n_mel : Z)
    (m : store) : outcome Spectrogram * store :=
  let (r, m1) := if (1 <? ndim (val wav))%nat
                 then lib_call (np_mean_axis1 (val wav)) m
                 else (Ret wav, m) in
  match r with
  | Raise e => (Raise e, m1)
  | Ret wav =>
    let win_length := win_length_of sr win_ms in
    match round_div (inject_Z win_length) overlap with
    | Raise e => (Raise e, m1)
    | Ret hop_length =>
      match n_fft_of win_length with
      | Raise e => (Raise e, m1)
      | Ret n_fft =>
        let s := {| _wav := wav; _sr := sr; _win_length := win_length;
                    _hop_length := hop_length; _n_fft := n_fft;
                    _n_mel := n_mel; _floor_db := -120;
                    _spec := None; linear := None; t_axis := None;
                    f_linear_axis := None; f_linear_axis_str := None;
                    mel := None; f_mel_axis := None;
                    f_mel_axis_str := None |} in
        match _update_linear (World s m1) with
        | (Ret _, w) => (Ret (self w), mem w)
        | (Raise e, w) => (Raise e, mem w)
        end
      end
    end
  end.

(** The [overlap] property. *)
Definition overlap : M Z :=
  win_length <- rd _win_length ;;
  hop_length <- rd _hop_length ;;
  lift (round_div (inject_Z win_length) (inject_Z hop_length)).

Definition set_overlap (overlap : Q) : M unit :=
  win_length <- rd _win_length ;;
  hop_length <- lift (round_div (inject_Z win_length) overlap) ;;
  cur <- rd _hop_length ;;
  if hop_length =? cur then ret tt
  else wr (with_hop_length hop_length) ;; _update_linear.

(** The [win_ms] property. *)
Definition win_ms : M Z :=
  win_length <- rd _win_length ;;
  sr <- rd _sr ;;
  lift (round_div (inject_Z (win_length * 1000)) (inject_Z sr)).

Definition set_win_ms (win_ms : Q) : M unit :=
  sr <- rd _sr ;;
  let win_length := win_length_of sr win_ms in
  cur <- rd _win_length ;;
  if win_length =? cur then ret tt
  else wr (with_win_length win_length) ;;
       n_fft <- lift (n_fft_of win_length) ;;
       wr (with_n_fft n_fft) ;;
       _update_linear.

(** The [n_mel] property. *)
Definition set_n_mel (n_mel : Z) : M unit :=
  cur <- rd _n_mel ;;
  if n_mel =? cur then ret tt
  else wr (with_n_mel n_mel) ;; _update_mel.

(** ** Engines that exist

    A world holds a constructed engine when [__init__] returned it, or when
    it is what a setter left behind on a constructed engine; a setter that
    raised counts too, since the object outlives the exception. *)
Inductive constructed : world -> Prop :=
| constructed_init wav sr win_ms overlap n_mel m s m' :
    __init__ wav sr win_ms overlap n_mel m = (Ret s, m') ->
    constructed (World s m')
| constructed_overlap v w r w' :
    constructed w -> set_overlap v w = (r, w') -> constructed w'
| constructed_win_ms v w r w' :
    constructed w -> set_win_ms v w = (r, w') -> constructed w'
| constructed_n_mel v w r w' :
    constructed w -> set_n_mel v w = (r, w') -> constructed w'.

(** A method call that raises and leaves no mark: the world, log of
    library calls included, is the one it started from. *)
Definition rejected_untouched {A} (m : M A) (w : world) : Prop :=
  exists e, m w = (Raise e, w).

(** The same for construction: an exception, and a store in which nothing
    was computed. *)
Definition init_fails_fast (wav : obj) (sr : Z) (win_ms overlap : Q)
    (n_mel : Z) (m : store) : Prop :=
  exists e, __init__ wav sr win_ms overlap n_mel m = (Raise e, m).

(** The calls of the mel stage. *)
Definition mel_stage_call (c : call) : Prop :=
  match c with
  | librosa_filters_mel _ _ _ | np_matmul _ _ | librosa_amplitude_to_db _ _
  | librosa_mel_frequencies _ _ | np_tile_freq_expr _ _ => True
  | _ => False
  end.

(** An object allocated after the store [m] was taken. *)
Definition fresh_in (m : store) (o : option obj) : Prop :=
  exists x, o = Some x /\ (next_id m <= oid x)%nat.

(** The attributes the mel stage has no business with: the parameters, the
    waveform and the linear products. *)
Definition same_params (s s' : Spectrogram) : Prop :=
  _wav s' = _wav s /\ _sr s' = _sr s /\ _win_length s' = _win_length s /\
  _hop_length s' = _hop_length s /\ _n_fft s' = _n_fft s /\
  _n_mel s' = _n_mel s /\ _floor_db s' = _floor_db s.

Definition same_linear (s s' : Spectrogram) : Prop :=
  _spec s' = _spec s /\ linear s' = linear s /\ t_axis s' = t_axis s /\
  f_linear_axis s' = f_linear_axis s /\
  f_linear_axis_str s' = f_linear_axis_str s.

(** [_n_fft] is what [_win_length] gives, whenever the latter is one for
    which the derivation does not raise. *)
Definition fft_consistent (s : Spectrogram) : Prop :=
  0 <= _win_length s -> n_fft_of (_win_length s) = Ret (_n_fft s).

(** The log grew by [l]. *)
Definition logged (m m' : store) (l : list call) : Prop :=
  trace m' = trace m ++ l.

End Engine.

(** [n] is the smallest power of two that is at least [l]. *)
Definition smallest_pow2_geq (n l : Z) : Prop :=
  (exists k, 0 <= k /\ n = 2 ^ k) /\ l <= n /\
  forall k, 0 <= k -> l <= 2 ^ k -> n <= 2 ^ k.

(** A sample rate and a window length in milliseconds the engine is meant
    for: both positive, and a window of at least one sample and within the
    range of the float logarithm. *)
Definition valid_window (sr : Z) (win_ms : Q) : Prop :=
  0 < sr /\ (0 < win_ms)%Q /\ 1 <= win_length_of sr win_ms /\
  float_exact (win_length_of sr win_ms).

Arguments Obj {Arr} oid val.
Arguments oid {Arr} o.
Arguments val {Arr} o.
Arguments Store {Arr} next_id trace.
Arguments next_id {Arr} s.
Arguments trace {Arr} s.
Arguments World {Arr} self mem.
Arguments self {Arr} w.
Arguments mem {Arr} w.
Arguments _wav {Arr} s.
Arguments _sr {Arr} s.
Arguments _win_length {Arr} s.
Arguments _hop_length {Arr} s.
Arguments _n_fft {Arr} s.
Arguments _n_mel {Arr} s.
Arguments _floor_db {Arr} s.
Arguments _spec {Arr} s.
Arguments linear {Arr} s.
Arguments t_axis {Arr} s.
Arguments f_linear_axis {Arr} s.
Arguments f_linear_axis_str {Arr} s.
Arguments mel {Arr} s.
Arguments f_mel_axis {Arr} s.
Arguments f_mel_axis_str {Arr} s.
Arguments with_win_length {Arr} v s.
Arguments with_hop_length {Arr} v s.
Arguments with_n_fft {Arr} v s.
Arguments with_n_mel {Arr} v s.
Arguments with_spec {Arr} v s.
Arguments with_linear {Arr} v s.
Arguments with_t_axis {Arr} v s.
Arguments with_f_linear_axis {Arr} v s.
Arguments with_f_linear_axis_str {Arr} v s.
Arguments with_mel {Arr} v s.
Arguments with_f_mel_axis {Arr} v s.
Arguments with_f_mel_axis_str {Arr} v s.
Arguments ret {Arr A} a w.
Arguments raise {Arr A} e w.
Arguments bind {Arr A B} m k w.
Arguments rd {Arr A} f w.
Arguments attr {Arr} f w.
Arguments wr {Arr} upd w.
Arguments lift {Arr A} r w.
Arguments lib_call {Arr} run c m.
Arguments lib {Arr} run c w.
Arguments _amp_to_db {Arr} run amp w.
Arguments _update_mel {Arr} run w.
Arguments _update_linear {Arr} run w.
Arguments __init__ {Arr} ndim run wav sr win_ms overlap n_mel m.
Arguments overlap {Arr} w.
Arguments set_overlap {Arr} run overlap w.
Arguments win_ms {Arr} w.
Arguments set_win_ms {Arr} run win_ms w.
Arguments set_n_mel {Arr} run n_mel w.
Arguments constructed {Arr} ndim run w.
Arguments rejected_untouched {Arr A} m w.
Arguments init_fails_fast {Arr} ndim run wav sr win_ms overlap n_mel m.
Arguments mel_stage_call {Arr} c.
Arguments fresh_in {Arr} m o.
Arguments same_params {Arr} s s'.
Arguments fft_consistent {Arr} s.
Arguments same_linear {Arr} s s'.
Arguments logged {Arr} m m' l.
Arguments np_mean_axis1 {Arr} wav.
Arguments librosa_stft {Arr} y n_fft hop_length win_length.
Arguments np_abs {Arr} x.
Arguments np_scale {Arr} x c.
Arguments librosa_amplitude_to_db {Arr} amp floor_db.
Arguments np_time_axis {Arr} spec hop_length sr.
Arguments np_linspace {Arr} stop num.
Arguments np_tile_freq_expr {Arr} f_axis t_axis.
Arguments librosa_filters_mel {Arr} sr n_fft n_mel.
Arguments np_matmul {Arr} a b.
Arguments librosa_mel_frequencies {Arr} n_mel fmax.

(** ** The upload path of [main.py] *)

Inductive freq_scale : Type := scale_mel | scale_linear.

Section Viewer.

Variable Arr : Type.
Variable ndim : Arr -> nat.
Variable run : call Arr -> option Arr.

(** The uploaded content of one file, and its decoding: lines 116-118
    ([contents.split(','), base64.b64decode]) and [sf.read]. *)
Variable contents : Type.
Variable b64decode : contents -> outcome contents.
Variable sf_read : contents -> option (Arr * Z).
(** [np.abs(wav).max()] *)
Variable peak : Arr -> option Q.

(** The arguments of one [parse_contents] job. *)
Record job : Type := Job {
  job_contents : contents;
  job_fname : string;
  job_win_ms : Q;
  job_overlap : Q;
  job_n_mel : Z;
  job_freq_scale : freq_scale;
  job_n_threads : Z
}.

(** [go.Heatmap(...)] and [go.Scattergl(...)], by the arrays they show. *)
Record Heatmap : Type := {
  hm_x : option (obj Arr);
  hm_y : option (obj Arr);
  hm_z : option (obj Arr);
  hm_customdata : option (obj Arr);
  hm_name : string
}.
Record Scattergl : Type := { sc_y : obj Arr; sc_sr : Z; sc_name : string }.

(** What a job returns: the error [html.Div], or the triple. *)
Inductive parsed : Type :=
| ErrorDiv
| Parsed (spec : Spectrogram Arr) (heatmap : Heatmap) (scatter : Scattergl).

(** [limits=n_threads if n_threads > 0 else None] *)
Definition thread_limit (n_threads : Z) : option Z :=
  if 0 <? n_threads then Some n_threads else None.

(** [parse_contents], run in a worker on the worker's own store. *)
Definition parse_contents (j : job) (m : store Arr)
    : outcome parsed * store Arr :=
  match b64decode (job_contents j) with
  | Raise e => (Raise e, m)
  | Ret decoded =>
    match sf_read decoded with
    | None => (Ret ErrorDiv, m)
    | Some (samples, sr) =>
      let wav := Obj (next_id m) samples in
      let m0 := Store (S (next_id m)) (trace m) in
      match __init__ ndim run wav sr (job_win_ms j) (job_overlap j)
                     (job_n_mel j) m0 with
      | (Raise e, m1) => (Raise e, m1)
      | (Ret spec, m1) =>
        let is_mel := match job_freq_scale j with
                      | scale_mel => true | scale_linear => false end in
        let heatmap :=
          {| hm_x := t_axis spec;
             hm_y := if is_mel then None else f_linear_axis spec;
             hm_z := if is_mel then mel spec else linear spec;
             hm_customdata := if is_mel then f_mel_axis_str spec
                              else f_linear_axis_str spec;
             hm_name := job_fname j |} in
        let scatter := {| sc_y := _wav spec; sc_sr := sr;
                          sc_name := job_fname j |} in
        (Ret (Parsed spec heatmap scatter), m1)
      end
    end
  end.

(** Lines 175-178 of [update_graphs]: the thread cap and the argument
    tuples handed to [pool.starmap_async]. *)
Definition n_threads_of (cpu_count : Z) (contents_list : list contents) : Z :=
  Z.max 2 (cpu_count / Z.of_nat (length contents_list)).

Definition job_args (cpu_count : Z) (contents_list : list contents)
    (filenames : list string) (fs : freq_scale) (win_ms overlap : Q) (n_mel : Z)
    : list job :=
  let n_threads := n_threads_of cpu_count contents_list in
  map (fun cf => Job (fst cf) (snd cf) win_ms overlap n_mel fs n_threads)
      (combine contents_list filenames).

(** Lines 194-204: the loop over [zip(annotations, tup_list)].  Its state
    is the annotations already visited (by the sample rate written into
    their text), [max_amp], and the lists [specs] and [plots]. *)
Record collected : Type := Collected {
  annotated : list (string * Z);
  max_amp : Q;
  specs : list (Spectrogram Arr);
  plots : list (Heatmap * Scattergl)
}.

(** One iteration.  The target [(spec, *plot)] unpacks the job's result:
    the error [html.Div] iterates over the ids of its children, of which
    there are none, so unpacking it raises [ValueError]. *)
Definition collect_step (annotation : string) (tup : parsed) (acc : collected)
    : outcome collected :=
  match tup with
  | ErrorDiv => Raise ValueError
  | Parsed spec heatmap scatter =>
    match peak (val (_wav spec)) with
    | None => Raise LibraryError
    | Some amp =>
      Ret {| annotated := annotated acc ++ [(annotation, _sr spec)];
             max_amp := if Qlt_le_dec (max_amp acc) amp then amp
                        else max_amp acc;
             specs := specs acc ++ [spec];
             plots := plots acc ++ [(heatmap, scatter)] |}
    end
  end.

(** The loop; when an iteration raises, what was appended to the global
    [specs] so far stays. *)
Fixpoint collect (zipped : list (string * parsed)) (acc : collected)
    : outcome unit * collected :=
  match zipped with
  | [] => (Ret tt, acc)
  | (annotation, tup) :: rest =>
    match collect_step annotation tup acc with
    | Raise e => (Raise e, acc)
    | Ret acc' => collect rest acc'
    end
  end.

Definition collect_results (annotations : list string) (tup_list : list parsed)
    : outcome unit * collected :=
  collect (combine annotations tup_list) (Collected [] 0 [] []).

End Viewer.

Arguments ErrorDiv {Arr}.
Arguments Parsed {Arr} spec heatmap scatter.
Arguments Job {contents}.
Arguments job_contents {contents} j.
Arguments job_fname {contents} j.
Arguments job_win_ms {contents} j.
Arguments job_overlap {contents} j.
Arguments job_n_mel {contents} j.
Arguments job_freq_scale {contents} j.
Arguments job_n_threads {contents} j.
Arguments n_threads_of {contents} cpu_count contents_list.
Arguments job_args {contents} cpu_count contents_list filenames fs win_ms
  overlap n_mel.
Arguments parse_contents {Arr} ndim run {contents} b64decode sf_read j m.
Arguments Collected {Arr}.
Arguments annotated {Arr} c.
Arguments max_amp {Arr} c.
Arguments specs {Arr} c.
Arguments plots {Arr} c.
Arguments collect_step {Arr} peak annotation tup acc.
Arguments collect {Arr} peak zipped acc.
Arguments collect_results {Arr} peak annotations tup_list.

(** ** A stand-in for the numeric library

    To run the engine on concrete inputs the library is replaced by a
    symbolic one: an array is either decoded samples, known by their number
    of channels and of frames, or the record of the call that produced it.
    As librosa does, the stand-in rejects an STFT whose [n_fft] or
    [hop_length] is below 1 or whose signal is empty; every other call
    succeeds. *)
Inductive sym : Type :=
| Samples (channels frames : nat)
| Res (c : call sym).

Definition sym_ndim (a : sym) : nat :=
  match a with
  | Samples channels _ => if (1 <? channels)%nat then 2%nat else 1%nat
  | Res (np_mean_axis1 _) => 1%nat
  | Res _ => 2%nat
  end.

Fixpoint sym_len (a : sym) : nat :=
  match a with
  | Samples _ frames => frames
  | Res (np_mean_axis1 w) => sym_len w
  | Res _ => 1%nat
  end.

Definition sym_run (c : call sym) : option sym :=
  match c with
  | librosa_stft y n_fft hop_length _ =>
    if (n_fft <? 1) || (hop_length <? 1) || (sym_len y =? 0)%nat
    then None else Some (Res c)
  | _ => Some (Res c)
  end.

(** A mono file of 1000 samples at 8 kHz, analysed with a 5 ms window
    (40 samples), overlap 4 (hop 10) and 128 mel bands: the engine as
    [_update_linear] leaves it at the end of [__init__]. *)
Definition demo_wav : obj sym := Obj 0 (Samples 1 1000).

Definition demo_world : world sym :=
  snd (_update_linear sym_run
         (World {| _wav := demo_wav; _sr := 8000; _win_length := 40;
                   _hop_length := 10; _n_fft := 64; _n_mel := 128;
                   _floor_db := -120;
                   _spec := None; linear := None; t_axis := None;
                   f_linear_axis := None; f_linear_axis_str := None;
                   mel := None; f_mel_axis := None;
                   f_mel_axis_str := None |}
                (Store 1 []))).

(** The same file at 1 kHz: a 5 ms window of 5 samples, overlap 4 (hop 1),
    FFT size 8. *)
Definition demo_world_1k : world sym :=
  snd (_update_linear sym_run
         (World {| _wav := demo_wav; _sr := 1000; _win_length := 5;
                   _hop_length := 1; _n_fft := 8; _n_mel := 128;
                   _floor_db := -120;
                   _spec := None; linear := None; t_axis := None;
                   f_linear_axis := None; f_linear_axis_str := None;
                   mel := None; f_mel_axis := None;
                   f_mel_axis_str := None |}
                (Store 1 []))).

(** A stand-in that answers every call. *)
Definition sym_total (c : call sym) : option sym := Some (Res c).

(** Uploaded files for the stand-in: bytes that do not decode ([None]), or
    the channels, frames and sample rate they decode to. *)
Definition demo_contents : Type := option (nat * nat * Z).

Definition demo_sf_read (c : demo_contents) : option (sym * Z) :=
  match c with
  | None => None
  | Some (channels, frames, sr) => Some (Samples channels frames, sr)
  end.

Definition demo_peak (a : sym) : option Q :=
  if (sym_len a =? 0)%nat then None else Some (1 # 2)%Q.

Definition demo_parse (j : job demo_contents) :=
  parse_contents sym_ndim sym_run Ret demo_sf_read j (Store 0 []).

(** Three uploads, the second of which does not decode. *)
Definition demo_batch : list demo_contents :=
  [Some (1%nat, 1000%nat, 8000); None; Some (2%nat, 500%nat, 8000)].

Definition demo_jobs : list (job demo_contents) :=
  job_args 8 demo_batch ["a.wav"; "b.wav"; "c.wav"]%string scale_mel 5 4 128.

(** What the jobs of the batch return, none of them raising (see
    [demo_batch_results]). *)
Definition demo_tup_list : list (parsed sym) :=
  flat_map (fun j => match fst (demo_parse j) with
                     | Ret p => [p]
                     | Raise _ => []
                     end) demo_jobs.

(** ** The rest of the engine's contract, and of [update_graphs] *)

Arguments hm_x {Arr} h.
Arguments hm_y {Arr} h.
Arguments hm_z {Arr} h.
Arguments hm_customdata {Arr} h.
Arguments hm_name {Arr} h.
Arguments sc_y {Arr} s.
Arguments sc_sr {Arr} s.
Arguments sc_name {Arr} s.

Section Recompute.

Variable Arr : Type.
Variable run : call Arr -> option Arr.

Definition obind {A B} (o : option A) (k : A -> option B) : option B :=
  match o with
  | Some a => k a
  | None => None
  end.

(** The values a computation from scratch gives for the parameters of
    [s]: those of [_spec], [linear], [t_axis], [f_linear_axis] and
    [f_linear_axis_str], as lines 77-89 compute them. *)
Definition expected_linear (s : Spectrogram Arr)
    : option (Arr * Arr * Arr * Arr * Arr) :=
  obind (run (librosa_stft (val (_wav s)) (_n_fft s) (_hop_length s)
                (_win_length s))) (fun X =>
  obind (run (np_abs X)) (fun mag =>
  match py_truediv 1024 (inject_Z (_win_length s)) with
  | Raise _ => None
  | Ret c =>
    obind (run (np_scale mag (c * inject_Z (_sr s) / 48000)%Q)) (fun sp =>
    obind (run (librosa_amplitude_to_db sp (_floor_db s))) (fun db =>
    obind (run (np_time_axis sp (_hop_length s) (_sr s))) (fun t =>
    obind (run (np_linspace (_sr s / 2) (_n_fft s / 2 + 1))) (fun f =>
    obind (run (np_tile_freq_expr f t)) (fun lab =>
    Some (sp, db, t, f, lab))))))
  end)).

(** The same for [mel], [f_mel_axis] and [f_mel_axis_str] (lines 93-99),
    from the magnitude [sp] and the time axis [t]. *)
Definition expected_mel (s : Spectrogram Arr) (sp t : Arr)
    : option (Arr * Arr * Arr) :=
  obind (run (librosa_filters_mel (_sr s) (_n_fft s) (_n_mel s))) (fun fb =>
  obind (run (np_matmul fb sp)) (fun mm =>
  obind (run (librosa_amplitude_to_db mm (_floor_db s))) (fun db =>
  obind (run (librosa_mel_frequencies (_n_mel s) (_sr s / 2))) (fun ax =>
  obind (run (np_tile_freq_expr ax t)) (fun lab =>
  Some (db, ax, lab)))))).

(** The cached products are the ones the current parameters give. *)
Definition up_to_date (s : Spectrogram Arr) : Prop :=
  exists sp db t f lab m ax mlab,
    expected_linear s = Some (sp, db, t, f, lab) /\
    expected_mel s sp t = Some (m, ax, mlab) /\
    option_map val (_spec s) = Some sp /\
    option_map val (linear s) = Some db /\
    option_map val (t_axis s) = Some t /\
    option_map val (f_linear_axis s) = Some f /\
    option_map val (f_linear_axis_str s) = Some lab /\
    option_map val (mel s) = Some m /\
    option_map val (f_mel_axis s) = Some ax /\
    option_map val (f_mel_axis_str s) = Some mlab.

(** Reading [overlap] after [set_overlap(v)] returns a number. *)
Definition overlap_reads_back (v : Q) (w : world Arr) : Prop :=
  exists z, fst (overlap (snd (set_overlap run v w))) = Ret z.

(** The eight spectral products of an engine. *)
Definition products (s : Spectrogram Arr) : list (option (obj Arr)) :=
  [_spec s; linear s; t_axis s; f_linear_axis s; f_linear_axis_str s;
   mel s; f_mel_axis s; f_mel_axis_str s].

(** An attribute that is assigned, to an object allocated from [m]. *)
Definition allocated_in (m : store Arr) (p : option (obj Arr)) : Prop :=
  exists o, p = Some o /\ (oid o < next_id m)%nat.

(** All products are assigned, and were allocated from the store. *)
Definition products_allocated (w : world Arr) : Prop :=
  Forall (allocated_in (mem w)) (products (self w)).

(** The life of an engine: any number of setter calls, returning or
    raising. *)
Inductive reaches : world Arr -> world Arr -> Prop :=
| reaches_refl w : reaches w w
| reaches_overlap v w0 w r w' :
    reaches w0 w -> set_overlap run v w = (r, w') -> reaches w0 w'
| reaches_win_ms v w0 w r w' :
    reaches w0 w -> set_win_ms run v w = (r, w') -> reaches w0 w'
| reaches_n_mel v w0 w r w' :
    reaches w0 w -> set_n_mel run v w = (r, w') -> reaches w0 w'.

(** Lines 222-225 of [update_graphs]: the three assignments made to each
    engine; [n_mel] is skipped when it is [None] or 0. *)
Definition apply_params (win_ms overlap : Q) (n_mel : option Z)
    : M Arr unit :=
  bind (set_win_ms run win_ms) (fun _ =>
  bind (set_overlap run overlap) (fun _ =>
  match n_mel with
  | Some n => if n =? 0 then ret tt else set_n_mel run n
  | None => ret tt
  end)).

(** Lines 227-237: the heatmap of an engine is brought up to date.  The
    heatmap shows the mel scale exactly when its [y] is [None]. *)
Definition with_hm_x (v : obj Arr) (d : Heatmap Arr) : Heatmap Arr :=
  {| hm_x := Some v; hm_y := hm_y d; hm_z := hm_z d;
     hm_customdata := hm_customdata d; hm_name := hm_name d |}.
Definition with_hm_y (v : option (obj Arr)) (d : Heatmap Arr) : Heatmap Arr :=
  {| hm_x := hm_x d; hm_y := v; hm_z := hm_z d;
     hm_customdata := hm_customdata d; hm_name := hm_name d |}.
Definition with_hm_z (v : obj Arr) (d : Heatmap Arr) : Heatmap Arr :=
  {| hm_x := hm_x d; hm_y := hm_y d; hm_z := Some v;
     hm_customdata := hm_customdata d; hm_name := hm_name d |}.
Definition with_hm_customdata (v : obj Arr) (d : Heatmap Arr) : Heatmap Arr :=
  {| hm_x := hm_x d; hm_y := hm_y d; hm_z := hm_z d;
     hm_customdata := Some v; hm_name := hm_name d |}.

Definition refresh_heatmap (fs : freq_scale) (s : Spectrogram Arr)
    (d : Heatmap Arr) : outcome unit * Heatmap Arr :=
  match t_axis s with
  | None => (Raise AttributeError, d)
  | Some t =>
    let d := with_hm_x t d in
    match fs with
    | scale_mel =>
      match mel s with
      | None => (Raise AttributeError, d)
      | Some z =>
        let d := with_hm_z z d in
        match hm_y d with
        | Some _ =>
          match f_mel_axis_str s with
          | None => (Raise AttributeError, d)
          | Some c => (Ret tt, with_hm_y None (with_hm_customdata c d))
          end
        | None => (Ret tt, with_hm_y None d)
        end
      end
    | scale_linear =>
      match linear s with
      | None => (Raise AttributeError, d)
      | Some z =>
        let d := with_hm_z z d in
        match hm_y d with
        | None =>
          match f_linear_axis_str s with
          | None => (Raise AttributeError, d)
          | Some c =>
            match f_linear_axis s with
            | None => (Raise AttributeError, with_hm_customdata c d)
            | Some f => (Ret tt, with_hm_y (Some f) (with_hm_customdata c d))
            end
          end
        | Some _ =>
          match f_linear_axis s with
          | None => (Raise AttributeError, d)
          | Some f => (Ret tt, with_hm_y (Some f) d)
          end
        end
      end
    end
  end.

(** Lines 221-237: the loop over [zip(specs, fig.data[::2])].  The engines
    are changed in place, one after the other, on the store they share;
    when one of them raises, the ones after it are not reached. *)
Fixpoint update_engines (win_ms overlap : Q) (n_mel : option Z)
    (fs : freq_scale) (l : list (Spectrogram Arr * Heatmap Arr))
    (m : store Arr)
    : outcome unit * list (Spectrogram Arr * Heatmap Arr) * store Arr :=
  match l with
  | [] => (Ret tt, [], m)
  | (s, d) :: rest =>
    match apply_params win_ms overlap n_mel (World s m) with
    | (Raise e, w) => (Raise e, (self w, d) :: rest, mem w)
    | (Ret _, w) =>
      match refresh_heatmap fs (self w) d with
      | (Raise e, d') => (Raise e, (self w, d') :: rest, mem w)
      | (Ret _, d') =>
        let '(r, rest', m') :=
          update_engines win_ms overlap n_mel fs rest (mem w) in
        (r, (self w, d') :: rest', m')
      end
    end
  end.

End Recompute.

Arguments obind {A B} o k.
Arguments expected_linear {Arr} run s.
Arguments expected_mel {Arr} run s sp t.
Arguments up_to_date {Arr} run s.
Arguments overlap_reads_back {Arr} run v w.
Arguments products {Arr} s.
Arguments allocated_in {Arr} m p.
Arguments products_allocated {Arr} w.
Arguments reaches {Arr} run w w'.
Arguments apply_params {Arr} run win_ms overlap n_mel w.
Arguments refresh_heatmap {Arr} fs s d.
Arguments update_engines {Arr} run win_ms overlap n_mel fs l m.

(** [str(n)] and the [{n}] of an f-string, for an integer. *)
Definition py_str (n : Z) : string := NilZero.string_of_int (Z.to_int n).

(** An entry of the window-length dropdown. *)
Record dropdown_option : Type := { opt_label : string; opt_value : Z }.

(** [update_n_fft], lines 248-256: the labels are rewritten, the selected
    entry with the FFT size of the first engine. *)
Definition update_n_fft {Arr} (specs : list (Spectrogram Arr))
    (options : list dropdown_option) (value : Z) : list dropdown_option :=
  match specs with
  | [] => options
  | s0 :: _ =>
    map (fun o =>
           if opt_value o =? value
           then {| opt_label := (py_str value ++ " ms (n_fft: "
                                 ++ py_str (_n_fft s0) ++ ")")%string;
                   opt_value := opt_value o |}
           else {| opt_label := (py_str (opt_value o) ++ " ms")%string;
                   opt_value := opt_value o |})
        options
  end.

(** [determine_disabling_n_mel], lines 263-266. *)
Definition determine_disabling_n_mel (fs : freq_scale) : bool :=
  match fs with
  | scale_mel => false
  | scale_linear => true
  end.

(** The heatmap [parse_contents] builds for the demonstration engine on
    the mel scale. *)
Definition demo_heatmap : Heatmap sym :=
  {| hm_x := t_axis (self demo_world); hm_y := None;
     hm_z := mel (self demo_world);
     hm_customdata := f_mel_axis_str (self demo_world);
     hm_name := "a.wav"%string |}.

(** * Properties of the engine *)

Section EngineFacts.

Variable Arr : Type.
Variable ndim : Arr -> nat.
Variable run : call Arr -> option Arr.

(** Running a method body: unfold the monad and split on every library
    answer and every attribute read. *)
Ltac unfold_m :=
  cbv [_amp_to_db bind rd attr wr lift lib lib_call ret raise].

Ltac split_run :=
  repeat match goal with
  | |- context [run ?c] =>
      let E := fresh "Erun" in
      destruct (run c) eqn:E; simpl
  | |- context [match ?f ?s with Some _ => _ | None => _ end] =>
      is_var s;
      let E := fresh "Eattr" in
      destruct (f s) eqn:E; simpl
  | |- context [py_truediv ?a ?b] =>
      let E := fresh "Ediv" in
      unfold py_truediv; destruct (Qeq_bool b 0) eqn:E; simpl
  end.

Lemma update_mel_frame (w : world Arr) :
  same_params (self w) (self (snd (_update_mel run w))) /\
  same_linear (self w) (self (snd (_update_mel run w))).
Proof.
  destruct w as [s m]. unfold _update_mel. unfold_m. simpl.
  split_run; cbn; repeat split; reflexivity.
Qed.

Lemma fresh_in_mono (m m' : store Arr) (o : option (obj Arr)) :
  (next_id m <= next_id m')%nat -> fresh_in m' o -> fresh_in m o.
Proof.
  intros Hle [x [Hx Hid]]. exists x. split; [exact Hx | lia].
Qed.

Lemma fresh_in_Some (m : store Arr) (x : obj Arr) :
  (next_id m <= oid x)%nat -> fresh_in m (Some x).
Proof. intros H. exists x. split; [reflexivity | exact H]. Qed.

(** The mel stage logs the filterbank first, and nothing but mel-stage
    calls. *)
Lemma update_mel_trace (w : world Arr) :
  exists l,
    logged (mem w) (mem (snd (_update_mel run w)))
      (librosa_filters_mel (_sr (self w)) (_n_fft (self w)) (_n_mel (self w))
       :: l) /\
    Forall mel_stage_call l.
Proof.
  destruct w as [s m]. unfold _update_mel, logged. unfold_m. simpl.
  split_run; simpl; repeat rewrite <- app_assoc; simpl;
    (eexists; split; [reflexivity | repeat constructor]).
Qed.

(** When the mel stage returns, the three mel products are new objects, and
    the mel matrix is the filterbank applied to the cached magnitude. *)
Lemma update_mel_returns (w w' : world Arr) :
  _update_mel run w = (Ret tt, w') ->
  (fresh_in (mem w) (mel (self w')) /\
   fresh_in (mem w) (f_mel_axis (self w')) /\
   fresh_in (mem w) (f_mel_axis_str (self w'))) /\
  (next_id (mem w) <= next_id (mem w'))%nat /\
  exists sp fb mm db,
    _spec (self w) = Some sp /\
    run (librosa_filters_mel (_sr (self w)) (_n_fft (self w))
           (_n_mel (self w))) = Some fb /\
    run (np_matmul fb (val sp)) = Some mm /\
    run (librosa_amplitude_to_db mm (_floor_db (self w))) = Some db /\
    option_map val (mel (self w')) = Some db.
Proof.
  destruct w as [s m]. revert w'. unfold _update_mel. unfold_m. simpl.
  split_run; intros w' H; inversion H; subst; clear H; simpl.
  split; [|split].
  - repeat split; apply fresh_in_Some; simpl; lia.
  - lia.
  - do 4 eexists. repeat split; eassumption.
Qed.

(** The linear stage changes no parameter. *)
Lemma update_linear_params (w : world Arr) :
  same_params (self w) (self (snd (_update_linear run w))).
Proof.
  clear ndim.
  destruct w as [s m]. unfold _update_linear. unfold_m. simpl.
  split_run; try (cbn; repeat split; reflexivity).
  match goal with
  | |- same_params _ (self (snd (_update_mel run ?W))) =>
      destruct (update_mel_frame W) as [Hp _]; revert Hp
  end.
  unfold same_params. simpl. tauto.
Qed.

(** The linear stage starts with the STFT of the waveform under the
    current parameters. *)
Lemma update_linear_trace (w : world Arr) :
  exists l,
    logged (mem w) (mem (snd (_update_linear run w)))
      (librosa_stft (val (_wav (self w))) (_n_fft (self w))
         (_hop_length (self w)) (_win_length (self w)) :: l).
Proof.
  destruct w as [s m]. unfold _update_linear, logged. unfold_m. simpl.
  split_run;
    try (simpl; repeat rewrite <- app_assoc; simpl; eexists; reflexivity).
  match goal with
  | |- context [_update_mel run ?W] =>
      destruct (update_mel_trace W) as [l [Hl _]]; revert Hl
  end.
  unfold logged. simpl. intros ->.
  repeat rewrite <- app_assoc. simpl. eexists; reflexivity.
Qed.

(** When the STFT raises, nothing else happens. *)
Lemma update_linear_stft_raises (w : world Arr) :
  run (librosa_stft (val (_wav (self w))) (_n_fft (self w))
         (_hop_length (self w)) (_win_length (self w))) = None ->
  _update_linear run w =
  (Raise LibraryError,
   World (self w)
     (Store (next_id (mem w))
        (trace (mem w) ++
         [librosa_stft (val (_wav (self w))) (_n_fft (self w))
            (_hop_length (self w)) (_win_length (self w))]))).
Proof.
  destruct w as [s m]. simpl. intros H.
  unfold _update_linear. unfold_m. simpl. rewrite H. reflexivity.
Qed.

(** With a window of no samples the linear stage cannot return: if the
    library lets the STFT through, the normalisation factor divides by
    zero. *)
Lemma update_linear_zero_window (w : world Arr) :
  _win_length (self w) = 0 ->
  exists e, fst (_update_linear run w) = Raise e.
Proof.
  destruct w as [s m]. simpl. intros H.
  unfold _update_linear. unfold_m. simpl. rewrite H.
  split_run; try (eexists; reflexivity); discriminate.
Qed.

(** When the linear stage returns, every spectral product is a new
    object. *)
Lemma update_linear_returns (w w' : world Arr) :
  _update_linear run w = (Ret tt, w') ->
  fresh_in (mem w) (_spec (self w')) /\
  fresh_in (mem w) (linear (self w')) /\
  fresh_in (mem w) (t_axis (self w')) /\
  fresh_in (mem w) (f_linear_axis (self w')) /\
  fresh_in (mem w) (f_linear_axis_str (self w')) /\
  fresh_in (mem w) (mel (self w')) /\
  fresh_in (mem w) (f_mel_axis (self w')) /\
  fresh_in (mem w) (f_mel_axis_str (self w')).
Proof.
  destruct w as [s m]. revert w'. unfold _update_linear. unfold_m. simpl.
  split_run; intros w' H; try discriminate H.
  match type of H with
  | _update_mel run ?W = _ =>
      destruct (update_mel_frame W) as [_ Hl];
      destruct (update_mel_returns W w' H) as [[Hm [Ha Hs]] _];
      rewrite H in Hl; simpl in Hl, Hm, Ha, Hs
  end.
  destruct Hl as (H1 & H2 & H3 & H4 & H5).
  rewrite H1, H2, H3, H4, H5.
  repeat split;
    try (apply fresh_in_Some; simpl; lia);
    (eapply fresh_in_mono; [|eassumption]); simpl; lia.
Qed.

(** ** When the library answers every call

    The engine adds two failures of its own to those of the library: an
    attribute read before it was assigned, and the division by a window
    length of zero.  Without them, and with a library that answers, both
    stages return. *)
Lemma update_mel_total (w : world Arr) :
  (forall c, run c <> None) ->
  _spec (self w) <> None -> t_axis (self w) <> None ->
  exists w', _update_mel run w = (Ret tt, w').
Proof.
  intros Htot. destruct w as [s m]. simpl. intros Hs Ht.
  unfold _update_mel. unfold_m. simpl.
  split_run;
    try (eexists; reflexivity); try contradiction;
    match goal with
    | E : run ?c = None |- _ => destruct (Htot c E)
    end.
Qed.

Lemma update_linear_total (w : world Arr) :
  (forall c, run c <> None) ->
  _win_length (self w) <> 0 ->
  exists w', _update_linear run w = (Ret tt, w').
Proof.
  intros Htot. destruct w as [s m]. simpl. intros Hw.
  unfold _update_linear. unfold_m. simpl.
  split_run;
    try match goal with
        | E : run ?c = None |- _ => destruct (Htot c E)
        end.
  - apply Qeq_bool_iff in Ediv. unfold Qeq in Ediv. simpl in Ediv. lia.
  - apply update_mel_total; [exact Htot | discriminate | discriminate].
Qed.

(** ** Python's division and rounding *)

Lemma round_div_nonzero (a b : Q) :
  ~ (b == 0)%Q -> round_div a b = Ret (py_round (a / b)).
Proof.
  intros H. unfold round_div, py_truediv.
  destruct (Qeq_bool b 0) eqn:E; [|reflexivity].
  apply Qeq_bool_iff in E. contradiction.
Qed.

Lemma round_div_zero (a b : Q) :
  (b == 0)%Q -> round_div a b = Raise ZeroDivisionError.
Proof.
  intros H. unfold round_div, py_truediv.
  apply Qeq_bool_iff in H. rewrite H. reflexivity.
Qed.

(** ** The setters, unfolded *)

Lemma set_overlap_unfold (v : Q) (h : Z) (w : world Arr) :
  round_div (inject_Z (_win_length (self w))) v = Ret h ->
  set_overlap run v w =
  if h =? _hop_length (self w) then (Ret tt, w)
  else _update_linear run (World (with_hop_length h (self w)) (mem w)).
Proof.
  intros H. destruct w as [s m]. simpl in *.
  unfold set_overlap. unfold_m. simpl. rewrite H.
  destruct (h =? _hop_length s); reflexivity.
Qed.

Lemma set_overlap_hop (v : Q) (h : Z) (w : world Arr) :
  round_div (inject_Z (_win_length (self w))) v = Ret h ->
  _hop_length (self (snd (set_overlap run v w))) = h /\
  _win_length (self (snd (set_overlap run v w))) = _win_length (self w).
Proof.
  intros H. rewrite (set_overlap_unfold v h w H).
  destruct (h =? _hop_length (self w)) eqn:E.
  - apply Z.eqb_eq in E. simpl. split; [symmetry; exact E | reflexivity].
  - destruct (update_linear_params
                (World (with_hop_length h (self w)) (mem w)))
      as (_ & _ & Hw & Hh & _).
    simpl in Hw, Hh. split; assumption.
Qed.

Lemma set_n_mel_unfold (n : Z) (w : world Arr) :
  set_n_mel run n w =
  if n =? _n_mel (self w) then (Ret tt, w)
  else _update_mel run (World (with_n_mel n (self w)) (mem w)).
Proof.
  destruct w as [s m]. unfold set_n_mel. unfold_m. simpl.
  destruct (n =? _n_mel s); reflexivity.
Qed.

(** C1.  [set_n_mel] with a value other than the current one recomputes the
    mel products only.  The linear dB array, the linear frequency axis, its
    label array, the time axis and the cached magnitude are the very
    objects they were (same identity, same value), and every parameter but
    [_n_mel] keeps its value; this holds whether or not the library raises
    on the way.  The calls made are mel-stage calls, the first of them the
    filterbank for the new [n_mel].  When the setter returns, the mel
    matrix, the mel axis and its labels are new objects, and the mel matrix
    is the dB conversion of the new filterbank applied to the cached
    magnitude. *)
Theorem set_n_mel_recomputes_only_mel (w : world Arr) (n : Z) :
  n <> _n_mel (self w) ->
  let w' := snd (set_n_mel run n w) in
  same_linear (self w) (self w') /\
  (_n_mel (self w') = n /\ _wav (self w') = _wav (self w) /\
   _sr (self w') = _sr (self w) /\
   _win_length (self w') = _win_length (self w) /\
   _hop_length (self w') = _hop_length (self w) /\
   _n_fft (self w') = _n_fft (self w)) /\
  (exists l,
     logged (mem w) (mem w')
       (librosa_filters_mel (_sr (self w)) (_n_fft (self w)) n :: l) /\
     Forall mel_stage_call l) /\
  (fst (set_n_mel run n w) = Ret tt ->
   fresh_in (mem w) (mel (self w')) /\
   fresh_in (mem w) (f_mel_axis (self w')) /\
   fresh_in (mem w) (f_mel_axis_str (self w')) /\
   exists sp fb mm db,
     _spec (self w) = Some sp /\
     run (librosa_filters_mel (_sr (self w)) (_n_fft (self w)) n) = Some fb /\
     run (np_matmul fb (val sp)) = Some mm /\
     run (librosa_amplitude_to_db mm (_floor_db (self w))) = Some db /\
     option_map val (mel (self w')) = Some db).
Proof.
  clear ndim.
  intros Hn w'. subst w'. rewrite set_n_mel_unfold.
  destruct (n =? _n_mel (self w)) eqn:E; [apply Z.eqb_eq in E; contradiction|].
  set (W := World (with_n_mel n (self w)) (mem w)).
  destruct (update_mel_frame W) as [Hp Hl].
  destruct (update_mel_trace W) as [l [Hlog Hall]].
  destruct (_update_mel run W) as [r W'] eqn:EW.
  unfold same_params in Hp. unfold same_linear in *. simpl in Hp, Hl, Hlog.
  simpl. split; [tauto|]. split; [tauto|]. split.
  - exists l. split; assumption.
  - intros Hr. subst r.
    destruct (update_mel_returns W W' EW) as ((Hm & Ha & Hs) & _ & Hv).
    split; [exact Hm|]. split; [exact Ha|]. split; [exact Hs|exact Hv].
Qed.

Lemma overlap_unfold (w : world Arr) :
  overlap w =
  (round_div (inject_Z (_win_length (self w)))
     (inject_Z (_hop_length (self w))), w).
Proof. destruct w as [s m]. reflexivity. Qed.

Lemma inject_Z_nonzero (z : Z) : z <> 0 -> ~ (inject_Z z == 0)%Q.
Proof. unfold Qeq, inject_Z. simpl. lia. Qed.

(** C3, as the code has it.  [set_overlap(v)] with a positive integer [v]
    stores the hop length [h = round(L / v)], where [L] is the window
    length.  When [h] is not zero, reading [overlap] afterwards returns
    [round(L / h)], which need not be [v]: for [L = 40] and [v = 16] it is
    20.  When [h] is zero, reading [overlap] raises [ZeroDivisionError]. *)
Theorem overlap_round_trip (w : world Arr) (v : Z) :
  0 < v ->
  let L := _win_length (self w) in
  let h := py_round (inject_Z L / inject_Z v) in
  let w' := snd (set_overlap run (inject_Z v) w) in
  _hop_length (self w') = h /\
  (h <> 0 ->
   overlap w' = (Ret (py_round (inject_Z L / inject_Z h)), w')) /\
  (h = 0 -> overlap w' = (Raise ZeroDivisionError, w')) /\
  (exists l0 v0 : Z,
     0 < v0 /\
     py_round (inject_Z l0 /
               inject_Z (py_round (inject_Z l0 / inject_Z v0))) <> v0).
Proof.
  intros Hv L h w'.
  assert (Hnz : ~ (inject_Z v == 0)%Q) by (apply inject_Z_nonzero; lia).
  pose proof (round_div_nonzero (inject_Z L) (inject_Z v) Hnz) as Hr.
  fold h in Hr.
  destruct (set_overlap_hop (inject_Z v) h w Hr) as [Hh Hw].
  fold w' in Hh, Hw. fold L in Hw.
  split; [exact Hh|].
  rewrite overlap_unfold, Hh, Hw.
  split; [|split].
  - intros Hz. rewrite round_div_nonzero; [reflexivity|].
    apply inject_Z_nonzero. exact Hz.
  - intros Hz. rewrite Hz. rewrite round_div_zero; reflexivity.
  - exists 40, 16. split; [lia|]. vm_compute. discriminate.
Qed.

(** C9, as the code has it.  [set_overlap(0)] raises [ZeroDivisionError]
    and leaves the engine as it was.  [set_overlap(v)] with
    [round(L / v) = 0] on an engine whose hop length is not zero stores the
    hop length 0 first and then starts the recomputation with an STFT of
    hop length 0; whatever the library does with it, the engine is not left
    as it was.  When the STFT raises, its error propagates, and the engine
    keeps the hop length 0 next to the spectral products of the previous
    hop length. *)
Theorem set_overlap_zero_hop_not_rolled_back (w : world Arr) :
  (forall v : Q, (v == 0)%Q ->
     set_overlap run v w = (Raise ZeroDivisionError, w)) /\
  (forall v : Q,
     round_div (inject_Z (_win_length (self w))) v = Ret 0 ->
     _hop_length (self w) <> 0 ->
     let stft := librosa_stft (val (_wav (self w))) (_n_fft (self w)) 0
                   (_win_length (self w)) in
     _hop_length (self (snd (set_overlap run v w))) = 0 /\
     (exists l, logged (mem w) (mem (snd (set_overlap run v w))) (stft :: l)) /\
     ~ rejected_untouched (set_overlap run v) w /\
     (run stft = None ->
      set_overlap run v w =
      (Raise LibraryError,
       World (with_hop_length 0 (self w))
         (Store (next_id (mem w)) (trace (mem w) ++ [stft]))))).
Proof.
  split.
  - intros v Hv. destruct w as [s m]. unfold set_overlap. unfold_m. simpl.
    rewrite (round_div_zero _ v Hv). reflexivity.
  - intros v Hr Hne stft.
    pose proof (set_overlap_unfold v 0 w Hr) as Hu.
    destruct (set_overlap_hop v 0 w Hr) as [Hh _].
    assert (Hb : (0 =? _hop_length (self w)) = false)
      by (apply Z.eqb_neq; intros E; apply Hne; symmetry; exact E).
    rewrite Hb in Hu.
    split; [exact Hh|]. split; [|split].
    + rewrite Hu.
      apply (update_linear_trace (World (with_hop_length 0 (self w)) (mem w))).
    + intros [e E]. rewrite E in Hh. simpl in Hh. contradiction.
    + intros Hnone. rewrite Hu.
      apply (update_linear_stft_raises
               (World (with_hop_length 0 (self w)) (mem w))).
      exact Hnone.
Qed.

Lemma set_win_ms_unfold (ms : Q) (w : world Arr) :
  set_win_ms run ms w =
  let L' := win_length_of (_sr (self w)) ms in
  if L' =? _win_length (self w) then (Ret tt, w)
  else match n_fft_of L' with
       | Raise e => (Raise e, World (with_win_length L' (self w)) (mem w))
       | Ret n =>
           _update_linear run
             (World (with_n_fft n (with_win_length L' (self w))) (mem w))
       end.
Proof.
  destruct w as [s m]. unfold set_win_ms. unfold_m. simpl.
  destruct (win_length_of (_sr s) ms =? _win_length s); [reflexivity|].
  destruct (n_fft_of (win_length_of (_sr s) ms)); reflexivity.
Qed.

Lemma n_fft_of_nonneg (l : Z) :
  0 <= l -> exists n, n_fft_of l = Ret n.
Proof.
  intros H. unfold n_fft_of.
  destruct (l <? 0) eqn:E; [apply Z.ltb_lt in E; lia|].
  destruct (l =? 0); eexists; reflexivity.
Qed.

(** C10.  [set_win_ms] with a value whose derived window length [L'] is not
    the current one stores [L'], leaves the hop length (and the waveform,
    the sample rate and [n_mel]) as they were, and, for [L'] not negative,
    stores the FFT size of [L'] and runs the full recomputation on the
    engine so updated.  The overlap read back afterwards is
    [round(L' / hop_length)] with the old hop length. *)
Theorem set_win_ms_keeps_hop (w : world Arr) (ms : Q) :
  let L' := win_length_of (_sr (self w)) ms in
  L' <> _win_length (self w) ->
  let w' := snd (set_win_ms run ms w) in
  (_win_length (self w') = L' /\
   _hop_length (self w') = _hop_length (self w) /\
   _wav (self w') = _wav (self w) /\ _sr (self w') = _sr (self w) /\
   _n_mel (self w') = _n_mel (self w)) /\
  (0 <= L' ->
   exists n, n_fft_of L' = Ret n /\ _n_fft (self w') = n /\
     set_win_ms run ms w =
     _update_linear run
       (World (with_n_fft n (with_win_length L' (self w))) (mem w))) /\
  overlap w' =
    (round_div (inject_Z L') (inject_Z (_hop_length (self w))), w').
Proof.
  clear ndim.
  intros L' Hne w'.
  assert (Hb : (L' =? _win_length (self w)) = false)
    by (apply Z.eqb_neq; exact Hne).
  pose proof (set_win_ms_unfold ms w) as Hu. cbv zeta in Hu.
  fold L' in Hu. rewrite Hb in Hu.
  assert (Hframe : _win_length (self w') = L' /\
                   _hop_length (self w') = _hop_length (self w) /\
                   _wav (self w') = _wav (self w) /\
                   _sr (self w') = _sr (self w) /\
                   _n_mel (self w') = _n_mel (self w)).
  { subst w'. rewrite Hu. destruct (n_fft_of L') as [n|e].
    - destruct (update_linear_params
                  (World (with_n_fft n (with_win_length L' (self w))) (mem w)))
        as (H1 & H2 & H3 & H4 & H5 & H6 & H7).
      simpl in *. tauto.
    - simpl. tauto. }
  split; [exact Hframe|]. split.
  - intros Hpos. destruct (n_fft_of_nonneg L' Hpos) as [n Hn].
    rewrite Hn in Hu. exists n. split; [exact Hn|]. split; [|exact Hu].
    subst w'. rewrite Hu.
    destruct (update_linear_params
                (World (with_n_fft n (with_win_length L' (self w))) (mem w)))
      as (_ & _ & _ & _ & H5 & _).
    exact H5.
  - rewrite overlap_unfold.
    destruct Hframe as (H1 & H2 & _). rewrite H1, H2. reflexivity.
Qed.

(** ** The FFT size *)

Lemma n_fft_of_smallest (l n : Z) :
  1 <= l -> n_fft_of l = Ret n -> smallest_pow2_geq n l.
Proof.
  intros Hl. unfold n_fft_of.
  destruct (l <? 0) eqn:E1; [apply Z.ltb_lt in E1; lia|].
  destruct (l =? 0) eqn:E2; [apply Z.eqb_eq in E2; lia|].
  intros H. inversion H; subst n; clear H.
  pose proof (Z.log2_up_nonneg l) as Hk.
  repeat split.
  - exists (Z.log2_up l). split; [exact Hk | reflexivity].
  - destruct (Z.eq_dec l 1) as [->|Hne]; [vm_compute; discriminate|].
    apply (Z.log2_up_spec l). lia.
  - intros k Hk0 Hle. apply Z.pow_le_mono_r; [lia|].
    apply Z.log2_up_le_pow2; [lia | exact Hle].
Qed.

(** What [__init__] has derived when it returns. *)
Lemma init_returns (wav : obj Arr) (sr : Z) (ms ov : Q) (n_mel : Z)
    (m m' : store Arr) (s : Spectrogram Arr) :
  __init__ ndim run wav sr ms ov n_mel m = (Ret s, m') ->
  _sr s = sr /\ _win_length s = win_length_of sr ms /\
  round_div (inject_Z (win_length_of sr ms)) ov = Ret (_hop_length s) /\
  n_fft_of (win_length_of sr ms) = Ret (_n_fft s) /\ _n_mel s = n_mel.
Proof.
  unfold __init__.
  destruct (if (1 <? ndim (val wav))%nat
            then lib_call run (np_mean_axis1 (val wav)) m
            else (Ret wav, m)) as [[mono|e] m1]; [|discriminate].
  destruct (round_div (inject_Z (win_length_of sr ms)) ov) as [h|e];
    [|discriminate].
  destruct (n_fft_of (win_length_of sr ms)) as [n|e]; [|discriminate].
  match goal with
  | |- context [_update_linear run ?W] =>
      pose proof (update_linear_params W) as Hp;
      destruct (_update_linear run W) as [[u|e] W']
  end; [|discriminate].
  intros H. inversion H; subst; clear H.
  unfold same_params in Hp. simpl in Hp.
  destruct Hp as (_ & H2 & H3 & H4 & H5 & H6 & _).
  rewrite H2, H3, H4, H5, H6. repeat split; reflexivity.
Qed.

Lemma set_overlap_fft (v : Q) (w : world Arr) :
  _win_length (self (snd (set_overlap run v w))) = _win_length (self w) /\
  _n_fft (self (snd (set_overlap run v w))) = _n_fft (self w).
Proof.
  destruct (round_div (inject_Z (_win_length (self w))) v) as [h|e] eqn:E.
  - rewrite (set_overlap_unfold v h w E).
    destruct (h =? _hop_length (self w)); [split; reflexivity|].
    destruct (update_linear_params
                (World (with_hop_length h (self w)) (mem w)))
      as (_ & _ & H3 & _ & H5 & _).
    split; assumption.
  - destruct w as [s m]. unfold set_overlap. unfold_m. simpl in *.
    rewrite E. split; reflexivity.
Qed.

Lemma set_win_ms_fft (ms : Q) (w : world Arr) :
  fft_consistent (self w) ->
  fft_consistent (self (snd (set_win_ms run ms w))).
Proof.
  intros Hc. rewrite set_win_ms_unfold. cbv zeta.
  set (L' := win_length_of (_sr (self w)) ms).
  destruct (L' =? _win_length (self w)); [exact Hc|].
  destruct (n_fft_of L') as [n|e] eqn:E.
  - destruct (update_linear_params
                (World (with_n_fft n (with_win_length L' (self w))) (mem w)))
      as (_ & _ & H3 & _ & H5 & _).
    unfold fft_consistent. rewrite H3, H5. simpl. intros _. exact E.
  - unfold fft_consistent. simpl. intros Hpos.
    destruct (n_fft_of_nonneg L' Hpos) as [n Hn]. congruence.
Qed.

Lemma set_n_mel_fft (n : Z) (w : world Arr) :
  _win_length (self (snd (set_n_mel run n w))) = _win_length (self w) /\
  _n_fft (self (snd (set_n_mel run n w))) = _n_fft (self w).
Proof.
  rewrite set_n_mel_unfold.
  destruct (n =? _n_mel (self w)); [split; reflexivity|].
  destruct (update_mel_frame (World (with_n_mel n (self w)) (mem w)))
    as [(_ & _ & H3 & _ & H5 & _) _].
  split; assumption.
Qed.

(** Every engine that exists has the FFT size of its window length. *)
Lemma constructed_fft_consistent (w : world Arr) :
  constructed ndim run w -> fft_consistent (self w).
Proof.
  induction 1 as [wav sr ms ov n_mel m s m' Hi
                 | v w r w' _ IH Hs | v w r w' _ IH Hs | v w r w' _ IH Hs].
  - destruct (init_returns _ _ _ _ _ _ _ _ Hi) as (_ & Hw & _ & Hn & _).
    unfold fft_consistent. simpl. rewrite Hw. intros _. exact Hn.
  - destruct (set_overlap_fft v w) as [H1 H2]. rewrite Hs in H1, H2.
    unfold fft_consistent in *. simpl in *. rewrite H1, H2. exact IH.
  - pose proof (set_win_ms_fft v w IH) as H1. rewrite Hs in H1. exact H1.
  - destruct (set_n_mel_fft v w) as [H1 H2]. rewrite Hs in H1, H2.
    unfold fft_consistent in *. simpl in *. rewrite H1, H2. exact IH.
Qed.


(** ** Construction *)

Lemma py_round_zero_num (x : Q) : Qnum x = 0 -> py_round x = 0.
Proof.
  unfold py_round. intros ->.
  rewrite Z.div_0_l, Z.mod_0_l by discriminate. reflexivity.
Qed.

Lemma win_length_of_zero_sr (ms : Q) : win_length_of 0 ms = 0.
Proof. unfold win_length_of. apply py_round_zero_num. reflexivity. Qed.

(** [__init__] on a mono waveform whose derivations do not raise: the
    attributes are set and [_update_linear] runs. *)
Lemma init_mono_unfold (wav : obj Arr) (sr : Z) (ms ov : Q) (n_mel : Z)
    (m : store Arr) (h n : Z) :
  (ndim (val wav) <= 1)%nat ->
  round_div (inject_Z (win_length_of sr ms)) ov = Ret h ->
  n_fft_of (win_length_of sr ms) = Ret n ->
  __init__ ndim run wav sr ms ov n_mel m =
  match _update_linear run
          (World {| _wav := wav; _sr := sr;
                    _win_length := win_length_of sr ms;
                    _hop_length := h; _n_fft := n; _n_mel := n_mel;
                    _floor_db := -120;
                    _spec := None; linear := None; t_axis := None;
                    f_linear_axis := None; f_linear_axis_str := None;
                    mel := None; f_mel_axis := None;
                    f_mel_axis_str := None |} m) with
  | (Ret _, w) => (Ret (self w), mem w)
  | (Raise e, w) => (Raise e, mem w)
  end.
Proof.
  intros Hd Hh Hn. unfold __init__.
  assert (E : (1 <? ndim (val wav))%nat = false) by (apply Nat.ltb_ge; exact Hd).
  rewrite E, Hh, Hn. reflexivity.
Qed.

(** With a library that answers, construction returns whenever the window
    has at least one sample and the overlap is not zero. *)
Lemma init_total (wav : obj Arr) (sr : Z) (ms ov : Q) (n_mel : Z)
    (m : store Arr) :
  (forall c, run c <> None) ->
  1 <= win_length_of sr ms -> ~ (ov == 0)%Q ->
  exists s m', __init__ ndim run wav sr ms ov n_mel m = (Ret s, m').
Proof.
  intros Htot Hl Hov. unfold __init__.
  assert (Hmono : exists mono m1,
            (if (1 <? ndim (val wav))%nat
             then lib_call run (np_mean_axis1 (val wav)) m
             else (Ret wav, m)) = (Ret mono, m1)).
  { destruct (1 <? ndim (val wav))%nat; [|eexists; eexists; reflexivity].
    unfold lib_call. destruct (run (np_mean_axis1 (val wav))) eqn:E.
    - eexists; eexists; reflexivity.
    - destruct (Htot _ E). }
  destruct Hmono as (mono & m1 & ->).
  rewrite (round_div_nonzero _ ov Hov).
  destruct (n_fft_of_nonneg (win_length_of sr ms)) as [n ->]; [lia|].
  match goal with
  | |- context [_update_linear run ?W] =>
      destruct (update_linear_total W Htot) as [w' ->]; [simpl; lia|]
  end.
  eexists; eexists; reflexivity.
Qed.

(** C8, as the code has it.  [__init__] checks neither the waveform nor the
    sample rate.  On a mono waveform, empty or not, and an overlap other
    than zero: when the derived window length is negative it raises
    [ValueError] while deriving the FFT size, before any library call;
    otherwise it derives hop length and FFT size and calls the STFT with
    them, and when the STFT raises, that error is the outcome and the STFT
    is the one call made.  With a sample rate of 0 all three sizes are 0,
    the STFT is called with them, and construction raises, after that
    call. *)
Theorem init_validates_nothing (wav : obj Arr) (sr : Z) (ms ov : Q)
    (n_mel : Z) (m : store Arr) :
  (ndim (val wav) <= 1)%nat -> ~ (ov == 0)%Q ->
  let L := win_length_of sr ms in
  let h := py_round (inject_Z L / ov) in
  let init := __init__ ndim run wav sr ms ov n_mel m in
  (L < 0 -> init = (Raise ValueError, m)) /\
  (0 <= L ->
   exists n, n_fft_of L = Ret n /\
     (exists l, logged m (snd init) (librosa_stft (val wav) n h L :: l)) /\
     (run (librosa_stft (val wav) n h L) = None ->
      init = (Raise LibraryError,
              Store (next_id m)
                (trace m ++ [librosa_stft (val wav) n h L])))) /\
  (sr = 0 ->
   (exists l, logged m (snd init) (librosa_stft (val wav) 0 0 0 :: l)) /\
   exists e, fst init = Raise e).
Proof.
  intros Hd Hov L h init.
  pose proof (round_div_nonzero (inject_Z L) ov Hov) as Hh. fold h in Hh.
  assert (Hpos : forall n, n_fft_of L = Ret n ->
            (exists l, logged m (snd init) (librosa_stft (val wav) n h L :: l)) /\
            (run (librosa_stft (val wav) n h L) = None ->
             init = (Raise LibraryError,
                     Store (next_id m)
                       (trace m ++ [librosa_stft (val wav) n h L]))) /\
            (L = 0 -> exists e, fst init = Raise e)).
  { intros n Hn. subst init.
    rewrite (init_mono_unfold wav sr ms ov n_mel m h n Hd Hh Hn). fold L.
    match goal with
    | |- context [_update_linear run ?W] =>
        pose proof (update_linear_trace W) as Ht;
        pose proof (update_linear_stft_raises W) as Hs;
        pose proof (update_linear_zero_window W) as Hz;
        destruct (_update_linear run W) as [[u|e] W']
    end; simpl in Ht, Hs, Hz |- *.
    - split; [exact Ht|]. split.
      + intros Hnone. specialize (Hs Hnone). discriminate Hs.
      + intros H0. destruct (Hz H0) as [e He]. discriminate He.
    - split; [exact Ht|]. split.
      + intros Hnone. specialize (Hs Hnone). inversion Hs. reflexivity.
      + intros _. exists e. reflexivity. }
  split; [|split].
  - intros Hneg. subst init. unfold __init__.
    assert (E : (1 <? ndim (val wav))%nat = false)
      by (apply Nat.ltb_ge; exact Hd).
    rewrite E. fold L. rewrite Hh. unfold n_fft_of.
    assert (E2 : (L <? 0) = true) by (apply Z.ltb_lt; exact Hneg).
    rewrite E2. reflexivity.
  - intros H0. destruct (n_fft_of_nonneg L H0) as [n Hn].
    exists n. split; [exact Hn|]. destruct (Hpos n Hn) as (H1 & H2 & _).
    split; assumption.
  - intros Hsr.
    assert (HL : L = 0) by (subst L; rewrite Hsr; apply win_length_of_zero_sr).
    assert (Hh0 : h = 0).
    { subst h. rewrite HL. apply py_round_zero_num. reflexivity. }
    assert (Hn : n_fft_of L = Ret 0) by (rewrite HL; reflexivity).
    destruct (Hpos 0 Hn) as (H1 & _ & H3).
    rewrite Hh0, HL in H1. split; [exact H1 | exact (H3 HL)].
Qed.

End EngineFacts.

(** * Properties of the upload path *)

Section ViewerFacts.

Variable Arr : Type.
Variable ndim : Arr -> nat.
Variable run : call Arr -> option Arr.
Variable contents : Type.
Variable b64decode : contents -> outcome contents.
Variable sf_read : contents -> option (Arr * Z).
Variable peak : Arr -> option Q.

(** C5.  For a batch of [C >= 1] files with as many names, every job gets
    the one thread cap [max(2, cpu_count // C)], [C] being the size of this
    batch, and that is the limit [parse_contents] puts on the numeric
    threads. *)
Theorem thread_cap_once_per_batch (cpu_count : Z)
    (contents_list : list contents) (filenames : list string)
    (fs : freq_scale) (win_ms overlap : Q) (n_mel : Z) :
  contents_list <> [] ->
  length filenames = length contents_list ->
  let C := Z.of_nat (length contents_list) in
  let jobs := job_args cpu_count contents_list filenames fs win_ms overlap
                n_mel in
  map job_contents jobs = contents_list /\
  Forall (fun j => job_n_threads j = Z.max 2 (cpu_count / C) /\
                   thread_limit (job_n_threads j)
                   = Some (Z.max 2 (cpu_count / C))) jobs.
Proof.
  intros _ Hlen C jobs. split.
  - subst jobs. unfold job_args. rewrite map_map. simpl.
    revert filenames Hlen.
    induction contents_list as [|c cs IH]; intros [|f fs'] Hlen;
      try discriminate Hlen; [reflexivity|].
    simpl. f_equal. apply IH. simpl in Hlen. lia.
  - subst jobs. unfold job_args. apply Forall_forall.
    intros j Hj. apply in_map_iff in Hj. destruct Hj as [cf [<- _]].
    simpl. unfold n_threads_of. fold C. split; [reflexivity|].
    unfold thread_limit.
    assert (E : (0 <? Z.max 2 (cpu_count / C)) = true)
      by (apply Z.ltb_lt; lia).
    rewrite E. reflexivity.
Qed.

Lemma collect_raises (zipped : list (string * parsed Arr))
    (i : nat) (a : string) (acc : collected Arr) :
  nth_error zipped i = Some (a, ErrorDiv) ->
  exists e acc',
    collect peak zipped acc = (Raise e, acc') /\
    (length (specs acc') <= length (specs acc) + i)%nat.
Proof.
  revert i acc. induction zipped as [|[b t] rest IH]; intros i acc Hn.
  - destruct i; discriminate Hn.
  - destruct i as [|i]; simpl in Hn.
    + inversion Hn; subst. simpl. exists ValueError, acc. split; [reflexivity|lia].
    + simpl. destruct (collect_step peak b t acc) as [acc1|e] eqn:E.
      * destruct (IH i acc1 Hn) as (e & acc' & Hc & Hl).
        exists e, acc'. split; [exact Hc|].
        assert (length (specs acc1) = S (length (specs acc))).
        { unfold collect_step in E. destruct t; [discriminate|].
          destruct (peak (val (_wav spec))); [|discriminate].
          inversion E; subst. simpl. rewrite length_app. simpl. lia. }
        lia.
      * exists e, acc. split; [reflexivity|lia].
Qed.

Lemma nth_error_combine {A B} (la : list A) (lb : list B) (i : nat) (b : B) :
  nth_error lb i = Some b -> (i < length la)%nat ->
  exists a, nth_error (combine la lb) i = Some (a, b).
Proof.
  revert lb i. induction la as [|a la IH]; intros lb i Hb Hi;
    [simpl in Hi; lia|].
  destruct lb as [|b' lb]; [destruct i; discriminate|].
  destruct i as [|i]; simpl in *.
  - inversion Hb; subst. exists a. reflexivity.
  - apply IH; [exact Hb | lia].
Qed.

(** C7, where the code stops short of it.  A job whose bytes do not decode
    returns the error placeholder and does not raise.  But the loop that
    takes the results apart treats every result as an engine with its
    plots: at the placeholder it raises, so the batch fails, and no engine
    at or after that position is kept. *)
Theorem failed_decode_breaks_batch :
  (forall (j : job contents) (m : store Arr) (decoded : contents),
     b64decode (job_contents j) = Ret decoded ->
     sf_read decoded = None ->
     parse_contents ndim run b64decode sf_read j m = (Ret ErrorDiv, m)) /\
  (forall (annotations : list string) (tup_list : list (parsed Arr))
          (i : nat),
     nth_error tup_list i = Some ErrorDiv ->
     (i < length annotations)%nat ->
     exists e acc,
       collect_results peak annotations tup_list = (Raise e, acc) /\
       (length (specs acc) <= i)%nat).
Proof.
  split.
  - intros j m decoded Hd Hs. unfold parse_contents. rewrite Hd, Hs.
    reflexivity.
  - intros annotations tup_list i Hn Hi.
    destruct (nth_error_combine annotations tup_list i ErrorDiv Hn Hi)
      as [a Ha].
    destruct (collect_raises _ i a (Collected [] 0 [] []) Ha)
      as (e & acc & Hc & Hl).
    exists e, acc. split; [exact Hc | simpl in Hl; exact Hl].
Qed.

End ViewerFacts.

(** * The engine and the upload path, run *)

(** The demonstration engine is what construction returns. *)
Lemma demo_world_init :
  __init__ sym_ndim sym_run demo_wav 8000 5 4 128 (Store 1 [])
  = (Ret (self demo_world), mem demo_world).
Proof. vm_compute. reflexivity. Qed.

Lemma demo_world_constructed : constructed sym_ndim sym_run demo_world.
Proof.
  assert (E : demo_world = World (self demo_world) (mem demo_world))
    by (destruct demo_world; reflexivity).
  rewrite E. eapply constructed_init. exact demo_world_init.
Qed.

Lemma set_n_mel_recomputes_only_mel_witness :
  64 <> _n_mel (self demo_world) /\
  linear (self (snd (set_n_mel sym_run 64 demo_world)))
  = linear (self demo_world) /\
  fresh_in (mem demo_world) (mel (self (snd (set_n_mel sym_run 64 demo_world)))).
Proof.
  assert (H : 64 <> _n_mel (self demo_world)) by (vm_compute; discriminate).
  split; [exact H|].
  destruct (set_n_mel_recomputes_only_mel sym sym_run demo_world 64 H)
    as ((_ & Hl & _) & _ & _ & Hret).
  split; [exact Hl|].
  apply Hret. vm_compute. reflexivity.
Defined.


Lemma overlap_round_trip_witness :
  0 < 16 /\
  fst (overlap (snd (set_overlap sym_run (inject_Z 16) demo_world))) = Ret 20.
Proof.
  assert (H : 0 < 16) by reflexivity.
  split; [exact H|].
  destruct (overlap_round_trip sym sym_run demo_world 16 H) as (_ & Hv & _).
  rewrite Hv; [vm_compute; reflexivity | vm_compute; discriminate].
Defined.

(** C3 as stated fails.  On a file of 1 kHz with a window of 5 ms (5
    samples), [set_overlap(16)] derives the hop length 0, and reading
    [overlap] afterwards raises instead of returning. *)
Lemma overlap_round_trip_counterexample :
  __init__ sym_ndim sym_run demo_wav 1000 5 4 128 (Store 1 [])
  = (Ret (self demo_world_1k), mem demo_world_1k) /\
  (0 < 16)%Q /\
  fst (overlap (snd (set_overlap sym_run 16 demo_world_1k)))
  = Raise ZeroDivisionError /\
  ~ overlap_reads_back sym_run 16 demo_world_1k.
Proof.
  split; [vm_compute; reflexivity|].
  split; [reflexivity|].
  split; [vm_compute; reflexivity|].
  intros [z H]. vm_compute in H. discriminate H.
Qed.

Lemma set_win_ms_keeps_hop_witness :
  win_length_of (_sr (self demo_world)) 10 <> _win_length (self demo_world) /\
  _hop_length (self (snd (set_win_ms sym_run 10 demo_world))) = 10 /\
  fst (overlap (snd (set_win_ms sym_run 10 demo_world))) = Ret 8.
Proof.
  assert (H : win_length_of (_sr (self demo_world)) 10
              <> _win_length (self demo_world)) by (vm_compute; discriminate).
  split; [exact H|].
  destruct (set_win_ms_keeps_hop sym sym_run demo_world 10 H)
    as ((_ & Hh & _) & _ & Ho).
  split.
  - rewrite Hh. vm_compute. reflexivity.
  - rewrite Ho. vm_compute. reflexivity.
Defined.

(** C8 as stated fails: with a sample rate of 0, and with an empty
    waveform, construction does not stop before the spectral computation;
    the STFT is called. *)
Lemma init_fails_fast_counterexample :
  ~ init_fails_fast sym_ndim sym_run demo_wav 0 5 4 128 (Store 1 []) /\
  ~ init_fails_fast sym_ndim sym_run (Obj 0 (Samples 1 0)) 8000 5 4 128
      (Store 1 []).
Proof.
  split; intros [e H];
    apply (f_equal (fun r => length (trace (snd r)))) in H;
    vm_compute in H; discriminate H.
Qed.

Lemma init_validates_nothing_witness :
  (sym_ndim (val demo_wav) <= 1)%nat /\ ~ (4 == 0)%Q /\
  exists e, fst (__init__ sym_ndim sym_run demo_wav 0 5 4 128 (Store 1 []))
            = Raise e.
Proof.
  assert (H1 : (sym_ndim (val demo_wav) <= 1)%nat) by (vm_compute; lia).
  assert (H2 : ~ (4 == 0)%Q) by (vm_compute; discriminate).
  split; [exact H1|]. split; [exact H2|].
  destruct (init_validates_nothing sym sym_ndim sym_run demo_wav 0 5 4 128
              (Store 1 []) H1 H2) as (_ & _ & Hz).
  destruct (Hz eq_refl) as [_ He]. exact He.
Defined.

(** C9 as stated fails: [set_overlap(100)] on a window of 40 samples
    derives the hop length 0 and raises, but the engine is not the one it
    was. *)
Lemma set_overlap_rejected_untouched_counterexample :
  round_div (inject_Z (_win_length (self demo_world))) 100 = Ret 0 /\
  (exists w', set_overlap sym_run 100 demo_world = (Raise LibraryError, w')) /\
  ~ rejected_untouched (set_overlap sym_run 100) demo_world.
Proof.
  split; [vm_compute; reflexivity|]. split.
  - eexists. vm_compute. reflexivity.
  - intros [e H].
    apply (f_equal (fun r => _hop_length (self (snd r)))) in H.
    vm_compute in H. discriminate H.
Qed.

Lemma set_overlap_zero_hop_not_rolled_back_witness :
  round_div (inject_Z (_win_length (self demo_world))) 100 = Ret 0 /\
  _hop_length (self demo_world) <> 0 /\
  _hop_length (self (snd (set_overlap sym_run 100 demo_world))) = 0.
Proof.
  assert (H1 : round_div (inject_Z (_win_length (self demo_world))) 100
               = Ret 0) by (vm_compute; reflexivity).
  assert (H2 : _hop_length (self demo_world) <> 0)
    by (vm_compute; discriminate).
  split; [exact H1|]. split; [exact H2|].
  destruct (set_overlap_zero_hop_not_rolled_back sym sym_run demo_world)
    as [_ Hz].
  destruct (Hz 100%Q H1 H2) as [Hh _]. exact Hh.
Defined.

Lemma thread_cap_once_per_batch_witness :
  demo_batch <> [] /\
  Forall (fun j => job_n_threads j = 2 /\ thread_limit (job_n_threads j) = Some 2)
    demo_jobs.
Proof.
  assert (H : demo_batch <> []) by discriminate.
  split; [exact H|].
  exact (proj2 (thread_cap_once_per_batch demo_contents 8 demo_batch
                  ["a.wav"; "b.wav"; "c.wav"]%string scale_mel 5 4 128
                  H eq_refl)).
Defined.

(** The batch of three with an undecodable second file: the jobs return an
    engine, the placeholder and an engine, none raises, and taking the
    results apart raises [ValueError] with only the first engine kept. *)
Lemma demo_batch_results :
  map (fun j => fst (demo_parse j)) demo_jobs = map Ret demo_tup_list /\
  exists p1 p3,
    demo_tup_list = [p1; ErrorDiv; p3] /\
    match p1 with
    | Parsed s1 _ _ => s1 = self demo_world
    | ErrorDiv => False
    end /\
    match p3 with Parsed _ _ _ => True | ErrorDiv => False end.
Proof.
  split; [vm_compute; reflexivity|].
  eexists. eexists. split; [vm_compute; reflexivity|].
  split; [vm_compute; reflexivity | exact I].
Qed.

Lemma demo_batch_fails :
  exists acc,
    collect_results demo_peak ["a.wav"; "b.wav"; "c.wav"]%string demo_tup_list
    = (Raise ValueError, acc) /\
    specs acc = [self demo_world].
Proof. eexists. split; vm_compute; reflexivity. Qed.

Lemma failed_decode_breaks_batch_witness :
  exists e acc,
    collect_results demo_peak ["a.wav"; "b.wav"; "c.wav"]%string demo_tup_list
    = (Raise e, acc) /\
    (length (specs acc) <= 1)%nat.
Proof.
  apply (proj2 (failed_decode_breaks_batch sym sym_ndim sym_run demo_contents
                  Ret demo_sf_read demo_peak)).
  - vm_compute. reflexivity.
  - simpl. lia.
Defined.

(** * More properties of the engine *)

(** ** Rounding *)

(** [round] is within one half of its argument. *)
Lemma py_round_near (x : Q) :
  2 * Qnum x - Zpos (Qden x) <= 2 * Zpos (Qden x) * py_round x
  <= 2 * Qnum x + Zpos (Qden x).
Proof.
  unfold py_round.
  pose proof (Z.div_mod (Qnum x) (Zpos (Qden x))) as Hd.
  pose proof (Z.mod_pos_bound (Qnum x) (Zpos (Qden x))) as Hm.
  destruct (Z.compare_spec (2 * (Qnum x mod Zpos (Qden x))) (Zpos (Qden x)));
    [destruct (Z.even _)| |]; nia.
Qed.

(** An integer nearer than one half is the rounded value. *)
Lemma py_round_unique (x : Q) (z : Z) :
  2 * Z.abs (Qnum x - z * Zpos (Qden x)) < Zpos (Qden x) ->
  py_round x = z.
Proof.
  intros H. pose proof (py_round_near x) as Hn. nia.
Qed.

(** Rounding gives zero exactly up to one half, the tie included. *)
Lemma py_round_zero_iff (x : Q) :
  0 <= Qnum x -> (py_round x = 0 <-> 2 * Qnum x <= Zpos (Qden x)).
Proof.
  intros Hx. split.
  - intros H. pose proof (py_round_near x) as Hn. rewrite H in Hn. lia.
  - intros H. unfold py_round.
    rewrite Z.div_small, Z.mod_small by lia.
    destruct (Z.compare_spec (2 * Qnum x) (Zpos (Qden x)));
      [reflexivity | reflexivity | lia].
Qed.

Lemma Qnum_div_pos (a : Z) (p : positive) :
  Qnum (inject_Z a / inject_Z (Zpos p)) = a * 1 /\
  Qden (inject_Z a / inject_Z (Zpos p)) = (1 * p)%positive.
Proof. split; reflexivity. Qed.

(** [round(a / b)] for integers, [b] positive, in integer terms. *)
Lemma py_round_div_near (a b : Z) :
  0 < b ->
  2 * a - b <= 2 * b * py_round (inject_Z a / inject_Z b) <= 2 * a + b.
Proof.
  intros Hb. destruct b as [|p|p]; try lia.
  pose proof (py_round_near (inject_Z a / inject_Z (Zpos p))) as H.
  destruct (Qnum_div_pos a p) as [Hn Hd]. rewrite Hn, Hd in H. lia.
Qed.

Lemma py_round_div_unique (a b z : Z) :
  0 < b -> 2 * Z.abs (a - z * b) < b ->
  py_round (inject_Z a / inject_Z b) = z.
Proof.
  intros Hb H. destruct b as [|p|p]; try lia.
  apply py_round_unique.
  destruct (Qnum_div_pos a p) as [Hn Hd]. rewrite Hn, Hd. lia.
Qed.

Lemma py_round_div_zero_iff (a b : Z) :
  0 <= a -> 0 < b ->
  (py_round (inject_Z a / inject_Z b) = 0 <-> 2 * a <= b).
Proof.
  intros Ha Hb. destruct b as [|p|p]; try lia.
  destruct (Qnum_div_pos a p) as [Hn Hd].
  rewrite py_round_zero_iff; rewrite Hn, ?Hd; lia.
Qed.

(** [round(sr * k / 1000)] in integer terms. *)
Lemma win_length_of_near (sr k : Z) :
  2 * (sr * k) - 1000 <= 2000 * win_length_of sr (inject_Z k)
  <= 2 * (sr * k) + 1000.
Proof.
  unfold win_length_of.
  pose proof (py_round_near (inject_Z sr * inject_Z k / 1000)) as H.
  change (Qnum (inject_Z sr * inject_Z k / 1000)) with (sr * k * 1) in H.
  change (Zpos (Qden (inject_Z sr * inject_Z k / 1000))) with 1000 in H.
  lia.
Qed.

Section MoreEngineFacts.

Variable Arr : Type.
Variable run : call Arr -> option Arr.

Ltac unfold_m :=
  cbv [_amp_to_db bind rd attr wr lift lib lib_call ret raise].

Ltac split_run :=
  repeat match goal with
  | |- context [run ?c] =>
      let E := fresh "Erun" in
      destruct (run c) eqn:E; simpl
  | |- context [match ?f ?s with Some _ => _ | None => _ end] =>
      is_var s;
      let E := fresh "Eattr" in
      destruct (f s) eqn:E; simpl
  | |- context [py_truediv ?a ?b] =>
      let E := fresh "Ediv" in
      unfold py_truediv; destruct (Qeq_bool b 0) eqn:E; simpl
  end.

(** ** What each setter stores and what it leaves *)

Lemma set_overlap_frame (v : Q) (w : world Arr) :
  let s' := self (snd (set_overlap run v w)) in
  _wav s' = _wav (self w) /\ _sr s' = _sr (self w) /\
  _win_length s' = _win_length (self w) /\ _n_fft s' = _n_fft (self w) /\
  _n_mel s' = _n_mel (self w) /\ _floor_db s' = _floor_db (self w).
Proof.
  intros s'. subst s'.
  destruct (round_div (inject_Z (_win_length (self w))) v) as [h|e] eqn:E.
  - rewrite (set_overlap_unfold Arr run v h w E).
    destruct (h =? _hop_length (self w)); [repeat split; reflexivity|].
    destruct (update_linear_params Arr run
                (World (with_hop_length h (self w)) (mem w)))
      as (H1 & H2 & H3 & _ & H5 & H6 & H7).
    repeat split; assumption.
  - destruct w as [s m]. unfold set_overlap. unfold_m. simpl in *.
    rewrite E. repeat split; reflexivity.
Qed.

Lemma set_win_ms_frame (ms : Q) (w : world Arr) :
  let s' := self (snd (set_win_ms run ms w)) in
  _win_length s' = win_length_of (_sr (self w)) ms /\
  _wav s' = _wav (self w) /\ _sr s' = _sr (self w) /\
  _hop_length s' = _hop_length (self w) /\
  _n_mel s' = _n_mel (self w) /\ _floor_db s' = _floor_db (self w).
Proof.
  intros s'. subst s'. rewrite set_win_ms_unfold. cbv zeta.
  set (L' := win_length_of (_sr (self w)) ms).
  destruct (L' =? _win_length (self w)) eqn:E.
  - apply Z.eqb_eq in E. simpl. repeat split; try reflexivity.
    symmetry. exact E.
  - destruct (n_fft_of L') as [n|e].
    + destruct (update_linear_params Arr run
                  (World (with_n_fft n (with_win_length L' (self w))) (mem w)))
        as (H1 & H2 & H3 & H4 & _ & H6 & H7).
      repeat split; assumption.
    + simpl. repeat split; reflexivity.
Qed.

Lemma set_n_mel_frame (n : Z) (w : world Arr) :
  let s' := self (snd (set_n_mel run n w)) in
  _n_mel s' = n /\
  _wav s' = _wav (self w) /\ _sr s' = _sr (self w) /\
  _win_length s' = _win_length (self w) /\
  _hop_length s' = _hop_length (self w) /\
  _n_fft s' = _n_fft (self w) /\ _floor_db s' = _floor_db (self w).
Proof.
  intros s'. subst s'. rewrite set_n_mel_unfold.
  destruct (n =? _n_mel (self w)) eqn:E.
  - apply Z.eqb_eq in E. simpl. repeat split; try reflexivity.
    symmetry. exact E.
  - destruct (update_mel_frame Arr run (World (with_n_mel n (self w)) (mem w)))
      as [(H1 & H2 & H3 & H4 & H5 & H6 & H7) _].
    repeat split; assumption.
Qed.

Lemma win_ms_unfold (w : world Arr) :
  win_ms w =
  (round_div (inject_Z (_win_length (self w) * 1000))
     (inject_Z (_sr (self w))), w).
Proof. destruct w as [s m]. reflexivity. Qed.

(** X1.  Window lengths in whole milliseconds survive the round trip
    through samples when the sample rate is at least 1000 Hz: after
    [set_win_ms(k)], whatever its outcome, [win_ms] reads [k]. *)
Theorem win_ms_round_trip (w : world Arr) (k : Z) :
  1000 <= _sr (self w) ->
  fst (win_ms (snd (set_win_ms run (inject_Z k) w))) = Ret k.
Proof.
  intros Hsr.
  destruct (set_win_ms_frame (inject_Z k) w) as (Hw & _ & Hs & _).
  rewrite win_ms_unfold, Hw, Hs. simpl.
  rewrite round_div_nonzero by (apply inject_Z_nonzero; lia).
  f_equal. apply py_round_div_unique; [lia|].
  pose proof (win_length_of_near (_sr (self w)) k) as Hn.
  destruct (Z.eq_dec (_sr (self w)) 1000) as [E|E].
  - rewrite E in *. lia.
  - lia.
Qed.

(** X2.  The overlap read back after [set_overlap(v)], [v] a positive
    integer, is [v] itself whenever [v] is smaller than the hop length it
    derives, and also whenever [v] divides the window length. *)
Theorem overlap_read_back_exact (w : world Arr) (v : Z) :
  0 < v ->
  let L := _win_length (self w) in
  let h := py_round (inject_Z L / inject_Z v) in
  v < h \/ (0 < L /\ exists q, L = q * v) ->
  fst (overlap (snd (set_overlap run (inject_Z v) w))) = Ret v.
Proof.
  intros Hv L h Hcase.
  assert (Hnz : ~ (inject_Z v == 0)%Q) by (apply inject_Z_nonzero; lia).
  pose proof (round_div_nonzero (inject_Z L) (inject_Z v) Hnz) as Hr.
  fold h in Hr.
  destruct (set_overlap_hop Arr run (inject_Z v) h w Hr) as [Hh Hw].
  rewrite overlap_unfold, Hh, Hw. fold L. simpl.
  pose proof (py_round_div_near L v Hv) as Hn. fold h in Hn.
  assert (Hpos : 0 < h).
  { destruct Hcase as [Hlt | [HL [q Hq]]]; [lia|].
    assert (h = q).
    { unfold h. apply py_round_div_unique; [lia|].
      rewrite Hq. replace (q * v - q * v) with 0 by ring. simpl. lia. }
    nia. }
  rewrite round_div_nonzero by (apply inject_Z_nonzero; lia).
  f_equal. apply py_round_div_unique; [exact Hpos|].
  destruct Hcase as [Hlt | [HL [q Hq]]].
  - lia.
  - assert (Hq' : h = q).
    { unfold h. apply py_round_div_unique; [lia|].
      rewrite Hq. replace (q * v - q * v) with 0 by ring. simpl. lia. }
    rewrite Hq', Hq. replace (q * v - v * q) with 0 by ring. simpl. lia.
Qed.

(** X3.  On a window of [L >= 0] samples, [set_overlap(v)] with a positive
    integer [v] stores the hop length 0 exactly when [v >= 2 L]; the tie
    [v = 2 L] rounds to the even side, which is 0. *)
Theorem hop_length_zero_iff (w : world Arr) (v : Z) :
  0 < v -> 0 <= _win_length (self w) ->
  (_hop_length (self (snd (set_overlap run (inject_Z v) w))) = 0
   <-> 2 * _win_length (self w) <= v).
Proof.
  intros Hv HL.
  assert (Hnz : ~ (inject_Z v == 0)%Q) by (apply inject_Z_nonzero; lia).
  pose proof (round_div_nonzero (inject_Z (_win_length (self w)))
                (inject_Z v) Hnz) as Hr.
  destruct (set_overlap_hop Arr run (inject_Z v) _ w Hr) as [Hh _].
  rewrite Hh. apply py_round_div_zero_iff; assumption.
Qed.

(** X5.  Each setter, called again with the value it was just called with,
    returns without touching the engine or calling the library; this is so
    even when the first call raised. *)
Theorem setters_idempotent (w : world Arr) :
  (forall n, let w' := snd (set_n_mel run n w) in
             set_n_mel run n w' = (Ret tt, w')) /\
  (forall v, ~ (v == 0)%Q ->
             let w' := snd (set_overlap run v w) in
             set_overlap run v w' = (Ret tt, w')) /\
  (forall ms, let w' := snd (set_win_ms run ms w) in
              set_win_ms run ms w' = (Ret tt, w')).
Proof.
  split; [|split].
  - intros n w'. destruct (set_n_mel_frame n w) as [Hn _]. fold w' in Hn.
    rewrite set_n_mel_unfold, Hn, Z.eqb_refl. reflexivity.
  - intros v Hv w'.
    pose proof (round_div_nonzero (inject_Z (_win_length (self w))) v Hv)
      as Hr.
    destruct (set_overlap_hop Arr run v _ w Hr) as [Hh Hw].
    fold w' in Hh, Hw.
    rewrite (set_overlap_unfold Arr run v
               (py_round (inject_Z (_win_length (self w)) / v)) w').
    + rewrite Hh, Z.eqb_refl. reflexivity.
    + rewrite Hw. exact Hr.
  - intros ms w'. destruct (set_win_ms_frame ms w) as (Hw & _ & Hs & _).
    fold w' in Hw, Hs.
    rewrite set_win_ms_unfold. cbv zeta. rewrite Hs, Hw, Z.eqb_refl.
    reflexivity.
Qed.

(** X6.  Recomputing the hop length changes nothing else: [set_overlap],
    returning or raising, leaves the waveform, the sample rate, the window
    length, the FFT size, the number of mel bands and the dB floor as they
    were. *)
Theorem set_overlap_changes_hop_only (w : world Arr) (v : Q) :
  let s' := self (snd (set_overlap run v w)) in
  _wav s' = _wav (self w) /\ _sr s' = _sr (self w) /\
  _win_length s' = _win_length (self w) /\ _n_fft s' = _n_fft (self w) /\
  _n_mel s' = _n_mel (self w) /\ _floor_db s' = _floor_db (self w).
Proof.
  intros s'. subst s'.
  destruct (round_div (inject_Z (_win_length (self w))) v) as [h|e] eqn:E.
  - rewrite (set_overlap_unfold Arr run v h w E).
    destruct (h =? _hop_length (self w)); [repeat split; reflexivity|].
    destruct (update_linear_params Arr run
                (World (with_hop_length h (self w)) (mem w)))
      as (H1 & H2 & H3 & _ & H5 & H6 & H7).
    repeat split; assumption.
  - destruct w as [s m]. unfold set_overlap. unfold_m. simpl in *.
    rewrite E. repeat split; reflexivity.
Qed.

(** ** Allocation *)

Lemma products_allocated_iff (w : world Arr) :
  products_allocated w <->
  allocated_in (mem w) (_spec (self w)) /\
  allocated_in (mem w) (linear (self w)) /\
  allocated_in (mem w) (t_axis (self w)) /\
  allocated_in (mem w) (f_linear_axis (self w)) /\
  allocated_in (mem w) (f_linear_axis_str (self w)) /\
  allocated_in (mem w) (mel (self w)) /\
  allocated_in (mem w) (f_mel_axis (self w)) /\
  allocated_in (mem w) (f_mel_axis_str (self w)).
Proof.
  unfold products_allocated, products.
  rewrite !Forall_cons_iff, Forall_nil_iff. tauto.
Qed.

Lemma allocated_in_mono (m m' : store Arr) (p : option (obj Arr)) :
  (next_id m <= next_id m')%nat -> allocated_in m p -> allocated_in m' p.
Proof.
  intros Hle [o [E Hlt]]. exists o. split; [exact E | lia].
Qed.

Ltac alloc :=
  repeat match goal with
         | E : ?t = Some _ |- context [?t] => rewrite E
         | E : ?t = None |- context [?t] => rewrite E
         end;
  match goal with
  | |- allocated_in _ (Some _) =>
      eexists; split; [reflexivity | simpl; lia]
  | H : allocated_in _ ?p |- allocated_in _ ?p =>
      eapply allocated_in_mono; [|exact H]; simpl; lia
  end.

(** The mel stage keeps allocated products allocated, whatever its outcome,
    and leaves all three mel products allocated when it returns. *)
Lemma update_mel_alloc (w : world Arr) :
  (next_id (mem w) <= next_id (mem (snd (_update_mel run w))))%nat /\
  (products_allocated w -> products_allocated (snd (_update_mel run w))) /\
  (fst (_update_mel run w) = Ret tt ->
   allocated_in (mem w) (_spec (self w)) ->
   allocated_in (mem w) (linear (self w)) ->
   allocated_in (mem w) (t_axis (self w)) ->
   allocated_in (mem w) (f_linear_axis (self w)) ->
   allocated_in (mem w) (f_linear_axis_str (self w)) ->
   products_allocated (snd (_update_mel run w))).
Proof.
  rewrite !products_allocated_iff.
  destruct w as [s m]. unfold _update_mel. unfold_m. simpl.
  split_run; simpl;
    (split; [lia|]);
    (split;
     [ intros (H1 & H2 & H3 & H4 & H5 & H6 & H7 & H8); repeat split; alloc
     | intros Hr H1 H2 H3 H4 H5; try discriminate Hr; repeat split; alloc ]).
Qed.

(** The same for the linear stage; when it returns, all eight products are
    allocated. *)
Lemma update_linear_alloc (w : world Arr) :
  (next_id (mem w) <= next_id (mem (snd (_update_linear run w))))%nat /\
  (products_allocated w -> products_allocated (snd (_update_linear run w))) /\
  (fst (_update_linear run w) = Ret tt ->
   products_allocated (snd (_update_linear run w))).
Proof.
  destruct w as [s m]. unfold _update_linear. unfold_m. simpl.
  split_run; simpl;
    try (rewrite !products_allocated_iff; simpl;
         (split; [lia|]);
         (split;
          [ intros (H1 & H2 & H3 & H4 & H5 & H6 & H7 & H8); repeat split; alloc
          | intros Hr; discriminate Hr ])).
  match goal with
  | |- context [_update_mel run ?W] =>
      destruct (update_mel_alloc W) as (Hid & Hkeep & Hret)
  end.
  simpl in Hid. split; [lia|]. split.
  - intros Hp. apply Hkeep. revert Hp.
    rewrite !products_allocated_iff. simpl.
    intros (H1 & H2 & H3 & H4 & H5 & H6 & H7 & H8). repeat split; alloc.
  - intros Hr. apply Hret; [exact Hr | simpl; alloc ..].
Qed.

Lemma set_overlap_alloc (v : Q) (w : world Arr) :
  products_allocated w -> products_allocated (snd (set_overlap run v w)).
Proof.
  intros Hp.
  destruct (round_div (inject_Z (_win_length (self w))) v) as [h|e] eqn:E.
  - rewrite (set_overlap_unfold Arr run v h w E).
    destruct (h =? _hop_length (self w)); [exact Hp|].
    apply (proj1 (proj2 (update_linear_alloc _))). exact Hp.
  - destruct w as [s m]. unfold set_overlap. unfold_m. simpl in *.
    rewrite E. exact Hp.
Qed.

Lemma set_win_ms_alloc (ms : Q) (w : world Arr) :
  products_allocated w -> products_allocated (snd (set_win_ms run ms w)).
Proof.
  intros Hp. rewrite set_win_ms_unfold. cbv zeta.
  destruct (_ =? _); [exact Hp|].
  destruct (n_fft_of _) as [n|e].
  - apply (proj1 (proj2 (update_linear_alloc _))). exact Hp.
  - exact Hp.
Qed.

Lemma set_n_mel_alloc (n : Z) (w : world Arr) :
  products_allocated w -> products_allocated (snd (set_n_mel run n w)).
Proof.
  intros Hp. rewrite set_n_mel_unfold.
  destruct (_ =? _); [exact Hp|].
  apply (proj1 (proj2 (update_mel_alloc _))). exact Hp.
Qed.

Lemma fresh_not_allocated (m : store Arr) (p q : option (obj Arr)) :
  fresh_in m p -> allocated_in m q -> p <> q.
Proof.
  intros [x [Hx Hge]] [o [Ho Hlt]] E. subst. inversion E. subst. lia.
Qed.

(** ** Which exceptions the stages raise *)

Lemma update_mel_errors (w : world Arr) (e : exn) :
  _spec (self w) <> None -> t_axis (self w) <> None ->
  fst (_update_mel run w) = Raise e -> e = LibraryError.
Proof.
  destruct w as [s m]. simpl. intros Hs Ht.
  unfold _update_mel. unfold_m. simpl.
  split_run; intros H; try discriminate H; try contradiction;
    inversion H; reflexivity.
Qed.

Lemma update_linear_errors (w : world Arr) (e : exn) :
  fst (_update_linear run w) = Raise e ->
  e = LibraryError \/ (e = ZeroDivisionError /\ _win_length (self w) = 0).
Proof.
  destruct w as [s m]. simpl.
  unfold _update_linear. unfold_m. simpl.
  split_run; intros H;
    match type of H with
    | Raise LibraryError = _ => inversion H; left; reflexivity
    | Raise ZeroDivisionError = _ =>
        inversion H; right; split; [reflexivity|];
        match goal with
        | E : Qeq_bool _ _ = true |- _ =>
            apply Qeq_bool_iff in E; unfold Qeq in E; simpl in E; lia
        end
    | _ => left; apply update_mel_errors in H; [exact H | | ];
           simpl; discriminate
    end.
Qed.

(** ** The cached products and the current parameters *)

Ltac rewrite_known :=
  repeat match goal with
         | E : ?t = Some _ |- context [?t] => rewrite E; simpl
         | E : Qeq_bool ?b 0 = false |- context [Qeq_bool ?b 0] =>
             rewrite E; simpl
         end.

Lemma expected_linear_ext (s s' : Spectrogram Arr) :
  same_params s s' -> expected_linear run s' = expected_linear run s.
Proof.
  intros (H1 & H2 & H3 & H4 & H5 & H6 & H7).
  unfold expected_linear. rewrite H1, H2, H3, H4, H5, H7. reflexivity.
Qed.

Lemma expected_mel_ext (s s' : Spectrogram Arr) (sp t : Arr) :
  same_params s s' -> expected_mel run s' sp t = expected_mel run s sp t.
Proof.
  intros (H1 & H2 & H3 & H4 & H5 & H6 & H7).
  unfold expected_mel. rewrite H2, H5, H6, H7. reflexivity.
Qed.

(** When the mel stage returns, the three mel products hold what the
    current parameters give from the cached magnitude and time axis. *)
Lemma update_mel_values (w w' : world Arr) :
  _update_mel run w = (Ret tt, w') ->
  exists sp t m ax lab,
    option_map val (_spec (self w)) = Some sp /\
    option_map val (t_axis (self w)) = Some t /\
    expected_mel run (self w) sp t = Some (m, ax, lab) /\
    option_map val (mel (self w')) = Some m /\
    option_map val (f_mel_axis (self w')) = Some ax /\
    option_map val (f_mel_axis_str (self w')) = Some lab.
Proof.
  destruct w as [s m]. revert w'. unfold _update_mel. unfold_m. simpl.
  split_run; intros w' H; inversion H; subst; clear H. simpl.
  do 5 eexists.
  split; [rewrite_known; reflexivity|].
  split; [rewrite_known; reflexivity|].
  split; [unfold expected_mel; rewrite_known; reflexivity|].
  repeat split; reflexivity.
Qed.

(** When the linear stage returns, the engine is up to date. *)
Lemma update_linear_up_to_date (w w' : world Arr) :
  _update_linear run w = (Ret tt, w') -> up_to_date run (self w').
Proof.
  destruct w as [s m]. revert w'. unfold _update_linear. unfold_m. simpl.
  split_run; intros w' H; try discriminate H.
  match type of H with
  | _update_mel run ?W = _ =>
      destruct (update_mel_frame Arr run W) as [Hp Hl];
      destruct (update_mel_values W w' H)
        as (sp & t & mv & ax & lab & Hsp & Ht & Hm & H6 & H7 & H8);
      rewrite H in Hp, Hl; simpl in Hp, Hl, Hsp, Ht, Hm
  end.
  inversion Hsp; subst sp. inversion Ht; subst t.
  destruct Hl as (L1 & L2 & L3 & L4 & L5).
  unfold up_to_date.
  do 5 eexists. exists mv, ax, lab.
  rewrite (expected_linear_ext _ _ Hp), (expected_mel_ext _ _ _ _ Hp).
  rewrite L1, L2, L3, L4, L5.
  split.
  { unfold expected_linear, py_truediv. simpl. rewrite_known.
    reflexivity. }
  split; [exact Hm|].
  repeat split; try reflexivity; assumption.
Qed.

(** A new number of mel bands keeps an up-to-date engine up to date. *)
Lemma set_n_mel_up_to_date (n : Z) (w w' : world Arr) :
  up_to_date run (self w) -> set_n_mel run n w = (Ret tt, w') ->
  up_to_date run (self w').
Proof.
  intros Hu. rewrite set_n_mel_unfold.
  destruct (n =? _n_mel (self w)).
  - intros H. inversion H. subst. exact Hu.
  - intros H.
    destruct (update_mel_frame Arr run
                (World (with_n_mel n (self w)) (mem w))) as [Hp Hl].
    destruct (update_mel_values _ w' H)
      as (sp & t & mv & ax & lab & Hsp & Ht & Hm & H6 & H7 & H8).
    rewrite H in Hp, Hl. simpl in Hp, Hl, Hsp, Ht.
    destruct Hu as (sp0 & db & t0 & f & flab & m0 & ax0 & mlab0 & U1 & _
                    & U3 & U4 & U5 & U6 & U7 & _).
    rewrite U3 in Hsp. inversion Hsp; subst sp.
    rewrite U5 in Ht. inversion Ht; subst t.
    destruct Hl as (L1 & L2 & L3 & L4 & L5).
    exists sp0, db, t0, f, flab, mv, ax, lab.
    rewrite (expected_linear_ext _ _ Hp), (expected_mel_ext _ _ _ _ Hp).
    rewrite L1, L2, L3, L4, L5. simpl.
    split; [exact U1|]. split; [exact Hm|].
    repeat split; assumption.
Qed.

(** On an engine whose products are up to date, every setter that
    returns leaves them up to date. *)
Lemma setters_keep_up_to_date (w w' : world Arr) :
  up_to_date run (self w) ->
  (forall v, set_overlap run v w = (Ret tt, w') -> up_to_date run (self w')) /\
  (forall ms, set_win_ms run ms w = (Ret tt, w') -> up_to_date run (self w')) /\
  (forall n, set_n_mel run n w = (Ret tt, w') -> up_to_date run (self w')).
Proof.
  intros Hu. split; [|split].
  - intros v H.
    destruct (round_div (inject_Z (_win_length (self w))) v) as [h|e] eqn:E.
    + rewrite (set_overlap_unfold Arr run v h w E) in H.
      destruct (h =? _hop_length (self w)).
      * inversion H. subst. exact Hu.
      * exact (update_linear_up_to_date _ _ H).
    + destruct w as [s m]. unfold set_overlap in H. revert H. unfold_m.
      simpl in *. rewrite E. discriminate.
  - intros ms H. rewrite set_win_ms_unfold in H. cbv zeta in H.
    destruct (_ =? _).
    + inversion H. subst. exact Hu.
    + destruct (n_fft_of _) as [n|e]; [|discriminate H].
      exact (update_linear_up_to_date _ _ H).
  - intros n H. exact (set_n_mel_up_to_date n w w' Hu H).
Qed.

End MoreEngineFacts.

Section OverlapSetter.

Variable Arr : Type.
Variable run : call Arr -> option Arr.

(** C4.  With [h = round(L / v)] the hop length [set_overlap(v)] derives
    from an integer [v] other than zero: the call is a no-op (it returns,
    and the world, log of library calls included, is untouched) exactly
    when [h] is the stored hop length, and the state is untouched only
    then.  Two inputs that derive the same hop length are
    indistinguishable.  When [h] differs, the call is the full
    recomputation on the engine with the new hop length.  It begins with
    the STFT under the new hop length.  When it returns, the hop length is
    [h], all eight spectral products, linear and mel, are new objects, and
    they hold what a computation from scratch gives for the parameters
    with the new hop length.  And it does return whenever the library
    answers every call and the window is not empty. *)
Theorem set_overlap_noop_iff (w : world Arr) (v : Z) :
  v <> 0 ->
  let L := inject_Z (_win_length (self w)) in
  let h := py_round (L / inject_Z v) in
  (set_overlap run (inject_Z v) w = (Ret tt, w)
   <-> h = _hop_length (self w)) /\
  (snd (set_overlap run (inject_Z v) w) = w <-> h = _hop_length (self w)) /\
  (forall v' : Z, v' <> 0 -> py_round (L / inject_Z v') = h ->
     set_overlap run (inject_Z v') w = set_overlap run (inject_Z v) w) /\
  (h <> _hop_length (self w) ->
   set_overlap run (inject_Z v) w =
     _update_linear run (World (with_hop_length h (self w)) (mem w)) /\
   (exists l,
      logged (mem w) (mem (snd (set_overlap run (inject_Z v) w)))
        (librosa_stft (val (_wav (self w))) (_n_fft (self w)) h
           (_win_length (self w)) :: l)) /\
   (forall w', set_overlap run (inject_Z v) w = (Ret tt, w') ->
      _hop_length (self w') = h /\
      up_to_date run (self w') /\
      Forall (fresh_in (mem w)) (products (self w'))) /\
   ((forall c, run c <> None) -> _win_length (self w) <> 0 ->
    exists w', set_overlap run (inject_Z v) w = (Ret tt, w'))).
Proof.
  intros Hv L h.
  assert (Hnz : ~ (inject_Z v == 0)%Q) by (apply inject_Z_nonzero; exact Hv).
  pose proof (round_div_nonzero L (inject_Z v) Hnz) as Hr. fold h in Hr.
  pose proof (set_overlap_unfold Arr run (inject_Z v) h w Hr) as Hu.
  destruct (set_overlap_hop Arr run (inject_Z v) h w Hr) as [Hh _].
  assert (Hstate : snd (set_overlap run (inject_Z v) w) = w
                   <-> h = _hop_length (self w)).
  { split.
    - intros E. rewrite E in Hh. symmetry. exact Hh.
    - intros E. rewrite Hu. apply Z.eqb_eq in E. rewrite E. reflexivity. }
  split; [|split; [exact Hstate|split]].
  - split.
    + intros E. apply Hstate. rewrite E. reflexivity.
    + intros E. rewrite Hu. apply Z.eqb_eq in E. rewrite E. reflexivity.
  - intros v' Hv' E.
    assert (Hnz' : ~ (inject_Z v' == 0)%Q)
      by (apply inject_Z_nonzero; exact Hv').
    pose proof (round_div_nonzero L (inject_Z v') Hnz') as Hr'.
    rewrite E in Hr'. rewrite Hu. apply set_overlap_unfold. exact Hr'.
  - intros Hne.
    assert (Hb : (h =? _hop_length (self w)) = false)
      by (apply Z.eqb_neq; exact Hne).
    rewrite Hb in Hu. split; [exact Hu|]. split; [|split].
    + rewrite Hu.
      apply (update_linear_trace Arr run
               (World (with_hop_length h (self w)) (mem w))).
    + intros w' E. split; [rewrite E in Hh; exact Hh|].
      rewrite Hu in E. split.
      * exact (update_linear_up_to_date Arr run _ _ E).
      * destruct (update_linear_returns Arr run _ _ E)
          as (F1 & F2 & F3 & F4 & F5 & F6 & F7 & F8).
        unfold products. repeat (apply Forall_cons; [assumption|]).
        apply Forall_nil.
    + intros Htot Hw. rewrite Hu.
      apply (update_linear_total Arr run
               (World (with_hop_length h (self w)) (mem w)) Htot).
      exact Hw.
Qed.

End OverlapSetter.

Lemma set_overlap_noop_iff_witness :
  4 <> 0 /\ 8 <> 0 /\
  set_overlap sym_run (inject_Z 4) demo_world = (Ret tt, demo_world) /\
  _hop_length (self (snd (set_overlap sym_run (inject_Z 8) demo_world))) = 5 /\
  up_to_date sym_run
    (self (snd (set_overlap sym_run (inject_Z 8) demo_world))) /\
  exists w', set_overlap sym_total (inject_Z 8) demo_world = (Ret tt, w').
Proof.
  assert (H4 : 4 <> 0) by discriminate.
  assert (H8 : 8 <> 0) by discriminate.
  split; [exact H4|]. split; [exact H8|].
  split; [|split; [|split]].
  - destruct (set_overlap_noop_iff sym sym_run demo_world 4 H4)
      as ([_ Hn] & _).
    apply Hn. vm_compute. reflexivity.
  - destruct (set_overlap_noop_iff sym sym_run demo_world 8 H8)
      as (_ & _ & _ & Hre).
    destruct Hre as (_ & _ & Hret & _); [vm_compute; discriminate|].
    destruct (Hret (snd (set_overlap sym_run (inject_Z 8) demo_world)))
      as (Hh & _); [vm_compute; reflexivity|].
    rewrite Hh. vm_compute. reflexivity.
  - destruct (set_overlap_noop_iff sym sym_run demo_world 8 H8)
      as (_ & _ & _ & Hre).
    destruct Hre as (_ & _ & Hret & _); [vm_compute; discriminate|].
    destruct (Hret (snd (set_overlap sym_run (inject_Z 8) demo_world)))
      as (_ & Hu & _); [vm_compute; reflexivity|].
    exact Hu.
  - destruct (set_overlap_noop_iff sym sym_total demo_world 8 H8)
      as (_ & _ & _ & Hre).
    destruct Hre as (_ & _ & _ & Htot); [vm_compute; discriminate|].
    apply Htot; [intros c; discriminate | vm_compute; discriminate].
Defined.

Section ConstructedFacts.

Variable Arr : Type.
Variable ndim : Arr -> nat.
Variable run : call Arr -> option Arr.

(** ** What construction leaves *)

(** When [__init__] returns, it has run the linear stage, to its end, on the
    attributes it derived; the waveform it stored is the one it was given
    when that has one dimension, and otherwise the channel mean, a new
    object. *)
Lemma init_returns_run (wav : obj Arr) (sr : Z) (ms ov : Q) (n_mel : Z)
    (m m' : store Arr) (s : Spectrogram Arr) :
  __init__ ndim run wav sr ms ov n_mel m = (Ret s, m') ->
  exists s0 m1,
    _update_linear run (World s0 m1) = (Ret tt, World s m') /\
    (next_id m <= next_id m1)%nat /\
    _floor_db s0 = -120 /\
    ((ndim (val wav) <= 1)%nat -> _wav s0 = wav) /\
    ((1 < ndim (val wav))%nat ->
     exists a, run (np_mean_axis1 (val wav)) = Some a /\
               _wav s0 = Obj (next_id m) a).
Proof.
  unfold __init__.
  destruct (1 <? ndim (val wav))%nat eqn:Ed.
  - apply Nat.ltb_lt in Ed. unfold lib_call.
    destruct (run (np_mean_axis1 (val wav))) as [a|] eqn:Ea; [|discriminate].
    destruct (round_div _ ov) as [h|e]; [|discriminate].
    destruct (n_fft_of _) as [n|e]; [|discriminate].
    match goal with
    | |- context [_update_linear run ?W] =>
        destruct (_update_linear run W) as [[[]|e] [s1 m2]] eqn:EW
    end; [|discriminate].
    intros H. inversion H; subst; clear H.
    eexists. eexists. split; [exact EW|]. simpl.
    split; [lia|]. split; [reflexivity|]. split; [lia|].
    intros _. exists a. split; reflexivity.
  - apply Nat.ltb_ge in Ed.
    destruct (round_div _ ov) as [h|e]; [|discriminate].
    destruct (n_fft_of _) as [n|e]; [|discriminate].
    match goal with
    | |- context [_update_linear run ?W] =>
        destruct (_update_linear run W) as [[[]|e] [s1 m2]] eqn:EW
    end; [|discriminate].
    intros H. inversion H; subst; clear H.
    eexists. eexists. split; [exact EW|]. simpl.
    split; [lia|]. split; [reflexivity|]. split; [reflexivity|]. lia.
Qed.

Lemma constructed_products_allocated (w : world Arr) :
  constructed ndim run w -> products_allocated w.
Proof.
  induction 1 as [wav sr ms ov n_mel m s m' Hi
                 | v w r w' _ IH Hs | v w r w' _ IH Hs | v w r w' _ IH Hs].
  - destruct (init_returns_run _ _ _ _ _ _ _ _ Hi) as (s0 & m1 & Hrun & _).
    destruct (update_linear_alloc Arr run (World s0 m1)) as (_ & _ & Hret).
    rewrite Hrun in Hret. apply Hret. reflexivity.
  - pose proof (set_overlap_alloc Arr run v w IH) as H. rewrite Hs in H.
    exact H.
  - pose proof (set_win_ms_alloc Arr run v w IH) as H. rewrite Hs in H.
    exact H.
  - pose proof (set_n_mel_alloc Arr run v w IH) as H. rewrite Hs in H.
    exact H.
Qed.

Lemma constructed_floor_db (w : world Arr) :
  constructed ndim run w -> _floor_db (self w) = -120.
Proof.
  induction 1 as [wav sr ms ov n_mel m s m' Hi
                 | v w r w' _ IH Hs | v w r w' _ IH Hs | v w r w' _ IH Hs].
  - destruct (init_returns_run _ _ _ _ _ _ _ _ Hi)
      as (s0 & m1 & Hrun & _ & Hf & _).
    destruct (update_linear_params Arr run (World s0 m1))
      as (_ & _ & _ & _ & _ & _ & H7).
    rewrite Hrun in H7. simpl in H7 |- *. rewrite H7. exact Hf.
  - destruct (set_overlap_frame Arr run v w) as (_ & _ & _ & _ & _ & H).
    rewrite Hs in H. simpl in H. rewrite H. exact IH.
  - destruct (set_win_ms_frame Arr run v w) as (_ & _ & _ & _ & _ & H).
    rewrite Hs in H. simpl in H. rewrite H. exact IH.
  - destruct (set_n_mel_frame Arr run v w) as (_ & _ & _ & _ & _ & _ & H).
    rewrite Hs in H. simpl in H. rewrite H. exact IH.
Qed.

(** X7.  An engine that exists has all eight spectral products assigned,
    each to an object allocated before now, and the dB floor -120.  This
    holds after setters that raised, too. *)
Theorem constructed_engine_is_complete (w : world Arr) :
  constructed ndim run w ->
  products_allocated w /\ _floor_db (self w) = -120.
Proof.
  intros H. split;
    [apply constructed_products_allocated | apply constructed_floor_db];
    exact H.
Qed.

(** X18.  A waveform of one dimension is stored as the object it is; one
    of more dimensions is replaced by its mean over the channels, a new
    object. *)
Theorem init_mixes_to_mono (wav : obj Arr) (sr : Z) (ms ov : Q) (n_mel : Z)
    (m m' : store Arr) (s : Spectrogram Arr) :
  __init__ ndim run wav sr ms ov n_mel m = (Ret s, m') ->
  ((ndim (val wav) <= 1)%nat -> _wav s = wav) /\
  ((1 < ndim (val wav))%nat ->
   exists a, run (np_mean_axis1 (val wav)) = Some a /\
             _wav s = Obj (next_id m) a).
Proof.
  intros Hi.
  destruct (init_returns_run _ _ _ _ _ _ _ _ Hi)
    as (s0 & m1 & Hrun & _ & _ & Hmono & Hmulti).
  destruct (update_linear_params Arr run (World s0 m1)) as (H1 & _).
  rewrite Hrun in H1. simpl in H1. rewrite H1. split; assumption.
Qed.

Lemma n_fft_of_lt_double (l n : Z) :
  1 <= l -> n_fft_of l = Ret n -> l <= n < 2 * l.
Proof.
  intros Hl. unfold n_fft_of.
  destruct (l <? 0) eqn:E1; [apply Z.ltb_lt in E1; lia|].
  destruct (l =? 0) eqn:E2; [apply Z.eqb_eq in E2; lia|].
  intros H. inversion H; subst n; clear H.
  destruct (Z.eq_dec l 1) as [->|Hne]; [vm_compute; split; congruence|].
  pose proof (Z.log2_up_spec l ltac:(lia)) as [Hlo Hhi].
  pose proof (Z.log2_up_pos l ltac:(lia)) as Hk.
  replace (Z.log2_up l) with (Z.succ (Z.pred (Z.log2_up l))) at 2 by lia.
  rewrite Z.pow_succ_r by lia. lia.
Qed.

(** X4.  On an engine that exists, with a window of at least one and
    fewer than 2^47 samples, the FFT size is at least the window length
    and less than twice it. *)
Theorem fft_size_below_twice_window (w : world Arr) :
  constructed ndim run w ->
  1 <= _win_length (self w) -> float_exact (_win_length (self w)) ->
  _win_length (self w) <= _n_fft (self w) < 2 * _win_length (self w).
Proof.
  intros Hc Hl _. apply n_fft_of_lt_double; [exact Hl|].
  apply (constructed_fft_consistent Arr ndim run w Hc). lia.
Qed.

(** X9.  The selective recomputation is sound.  The engine [__init__]
    returns holds, in its eight products, what a computation from scratch
    gives for its parameters; and on an engine of which that is true, every
    setter that returns leaves it true, [set_n_mel] included, which
    recomputes the mel stage only. *)
Theorem cache_stays_up_to_date :
  (forall wav sr ms ov n_mel m s m',
     __init__ ndim run wav sr ms ov n_mel m = (Ret s, m') ->
     up_to_date run s) /\
  (forall w w' : world Arr,
     up_to_date run (self w) ->
     (forall v, set_overlap run v w = (Ret tt, w') ->
                up_to_date run (self w')) /\
     (forall ms, set_win_ms run ms w = (Ret tt, w') ->
                 up_to_date run (self w')) /\
     (forall n, set_n_mel run n w = (Ret tt, w') ->
                up_to_date run (self w'))).
Proof.
  split.
  - intros wav sr ms ov n_mel m s m' Hi.
    destruct (init_returns_run _ _ _ _ _ _ _ _ Hi) as (s0 & m1 & Hrun & _).
    exact (update_linear_up_to_date Arr run _ _ Hrun).
  - intros w w' Hu. exact (setters_keep_up_to_date Arr run w w' Hu).
Qed.

(** X8.  On an engine that exists, a setter that changes its parameter and
    returns has replaced what depends on it by new objects: all eight
    products for the hop length and for the window length, the three mel
    products for the number of mel bands. *)
Theorem recomputed_products_are_new_objects (w w' : world Arr) :
  constructed ndim run w ->
  (forall v, set_overlap run v w = (Ret tt, w') ->
     _hop_length (self w') <> _hop_length (self w) ->
     Forall2 (fun p q => p <> q) (products (self w')) (products (self w))) /\
  (forall ms, set_win_ms run ms w = (Ret tt, w') ->
     _win_length (self w') <> _win_length (self w) ->
     Forall2 (fun p q => p <> q) (products (self w')) (products (self w))) /\
  (forall n, set_n_mel run n w = (Ret tt, w') ->
     _n_mel (self w') <> _n_mel (self w) ->
     mel (self w') <> mel (self w) /\
     f_mel_axis (self w') <> f_mel_axis (self w) /\
     f_mel_axis_str (self w') <> f_mel_axis_str (self w)).
Proof.
  intros Hc.
  pose proof (constructed_products_allocated w Hc) as Ha.
  apply products_allocated_iff in Ha.
  destruct Ha as (A1 & A2 & A3 & A4 & A5 & A6 & A7 & A8).
  assert (Hall : forall W : world Arr,
            mem W = mem w ->
            _update_linear run W = (Ret tt, w') ->
            Forall2 (fun p q => p <> q) (products (self w'))
              (products (self w))).
  { intros W Hm Hrun.
    destruct (update_linear_returns Arr run W w' Hrun)
      as (F1 & F2 & F3 & F4 & F5 & F6 & F7 & F8).
    rewrite Hm in *.
    unfold products.
    repeat (apply Forall2_cons; [eapply fresh_not_allocated; eassumption|]).
    apply Forall2_nil. }
  split; [|split].
  - intros v H Hne.
    destruct (round_div (inject_Z (_win_length (self w))) v) as [h|e] eqn:E.
    + rewrite (set_overlap_unfold Arr run v h w E) in H.
      destruct (h =? _hop_length (self w)).
      * inversion H. subst. contradiction.
      * eapply Hall; [|exact H]. reflexivity.
    + destruct w as [s m]. unfold set_overlap in H. revert H.
      cbv [bind rd lift]. simpl in *. rewrite E. discriminate.
  - intros ms H Hne. rewrite set_win_ms_unfold in H. cbv zeta in H.
    destruct (_ =? _).
    + inversion H. subst. contradiction.
    + destruct (n_fft_of _) as [n|e]; [|discriminate H].
      eapply Hall; [|exact H]. reflexivity.
  - intros n H Hne. rewrite set_n_mel_unfold in H.
    destruct (n =? _n_mel (self w)).
    + inversion H. subst. contradiction.
    + destruct (update_mel_returns Arr run _ w' H) as ((F1 & F2 & F3) & _).
      simpl in F1, F2, F3.
      repeat split; eapply fresh_not_allocated; eassumption.
Qed.

(** X10.  What a setter can raise.  [set_n_mel] on an engine that exists
    raises nothing but what the library raises.  [set_overlap] raises the
    library's errors and [ZeroDivisionError], the latter only for an
    overlap of zero or on a window of no samples.  [set_win_ms] raises the
    library's errors, [ValueError] only for a negative derived window
    length, and [ZeroDivisionError] only for a derived window length of
    zero.  No setter fails on a missing attribute. *)
Theorem setter_errors (w : world Arr) (e : exn) :
  (forall n, constructed ndim run w ->
     fst (set_n_mel run n w) = Raise e -> e = LibraryError) /\
  (forall v, fst (set_overlap run v w) = Raise e ->
     e = LibraryError \/
     (e = ZeroDivisionError /\ ((v == 0)%Q \/ _win_length (self w) = 0))) /\
  (forall ms, fst (set_win_ms run ms w) = Raise e ->
     e = LibraryError \/
     (e = ValueError /\ win_length_of (_sr (self w)) ms < 0) \/
     (e = ZeroDivisionError /\ win_length_of (_sr (self w)) ms = 0)).
Proof.
  split; [|split].
  - intros n Hc. rewrite set_n_mel_unfold.
    destruct (n =? _n_mel (self w)); [discriminate|].
    pose proof (constructed_products_allocated w Hc) as Ha.
    apply products_allocated_iff in Ha.
    destruct Ha as ([o1 [E1 _]] & _ & [o3 [E3 _]] & _).
    apply update_mel_errors; simpl; congruence.
  - intros v.
    destruct (round_div (inject_Z (_win_length (self w))) v) as [h|e'] eqn:E.
    + rewrite (set_overlap_unfold Arr run v h w E).
      destruct (h =? _hop_length (self w)); [discriminate|].
      intros H. apply update_linear_errors in H. simpl in H.
      destruct H as [H | [H1 H2]]; [left; exact H | right; auto].
    + unfold round_div, py_truediv in E.
      destruct (Qeq_bool v 0) eqn:Ev; [|discriminate E].
      inversion E; subst e'.
      destruct w as [s m]. unfold set_overlap. cbv [bind rd lift]. simpl.
      unfold round_div, py_truediv. rewrite Ev. simpl.
      intros H. inversion H. right. split; [reflexivity|]. left.
      apply Qeq_bool_iff. exact Ev.
  - intros ms. rewrite set_win_ms_unfold. cbv zeta.
    set (L' := win_length_of (_sr (self w)) ms).
    destruct (L' =? _win_length (self w)); [discriminate|].
    destruct (n_fft_of L') as [n|e'] eqn:En.
    + intros H. apply update_linear_errors in H. simpl in H.
      destruct H as [H | [H1 H2]]; [left; exact H | right; right; auto].
    + simpl. intros H. inversion H; subst e'.
      unfold n_fft_of in En.
      destruct (L' <? 0) eqn:El.
      * inversion En. right. left. split; [reflexivity|].
        apply Z.ltb_lt. exact El.
      * destruct (L' =? 0); discriminate En.
Qed.

(** X19.  Through the life of an engine, whatever setters are called and
    whether they return or raise, the waveform object, the sample rate and
    the dB floor stay what they were, and no allocated product is lost. *)
Theorem engine_life_invariants (w w' : world Arr) :
  reaches run w w' ->
  _wav (self w') = _wav (self w) /\ _sr (self w') = _sr (self w) /\
  _floor_db (self w') = _floor_db (self w) /\
  (products_allocated w -> products_allocated w') /\
  (fft_consistent (self w) -> fft_consistent (self w')).
Proof.
  induction 1 as [w | v w0 w r w' _ IH Hs | v w0 w r w' _ IH Hs
                 | v w0 w r w' _ IH Hs].
  - repeat split; auto.
  - destruct IH as (I1 & I2 & I3 & I4 & I5).
    destruct (set_overlap_frame Arr run v w) as (H1 & H2 & H3 & H4 & _ & H6).
    pose proof (set_overlap_alloc Arr run v w) as Ha.
    rewrite Hs in *. simpl in *.
    repeat split; try congruence.
    + intros Hp. apply Ha, I4, Hp.
    + intros Hf. unfold fft_consistent in *. rewrite H3, H4. apply I5, Hf.
  - destruct IH as (I1 & I2 & I3 & I4 & I5).
    destruct (set_win_ms_frame Arr run v w) as (_ & H1 & H2 & _ & _ & H6).
    pose proof (set_win_ms_alloc Arr run v w) as Ha.
    pose proof (set_win_ms_fft Arr run v w) as Hf'.
    rewrite Hs in *. simpl in *.
    repeat split; try congruence.
    + intros Hp. apply Ha, I4, Hp.
    + intros Hf. apply Hf', I5, Hf.
  - destruct IH as (I1 & I2 & I3 & I4 & I5).
    destruct (set_n_mel_frame Arr run v w)
      as (_ & H1 & H2 & H3 & _ & H5 & H6).
    pose proof (set_n_mel_alloc Arr run v w) as Ha.
    rewrite Hs in *. simpl in *.
    repeat split; try congruence.
    + intros Hp. apply Ha, I4, Hp.
    + intros Hf. unfold fft_consistent in *. rewrite H3, H5. apply I5, Hf.
Qed.

End ConstructedFacts.

(** * Properties of the parameter updates of [update_graphs] *)

Section UpdateFacts.

Variable Arr : Type.
Variable ndim : Arr -> nat.
Variable run : call Arr -> option Arr.

(** What [apply_params] has stored when it returns. *)
Lemma apply_params_returns (ms ov : Q) (nm : option Z) (w w' : world Arr) :
  apply_params run ms ov nm w = (Ret tt, w') ->
  _wav (self w') = _wav (self w) /\ _sr (self w') = _sr (self w) /\
  _win_length (self w') = win_length_of (_sr (self w)) ms /\
  round_div (inject_Z (_win_length (self w'))) ov
  = Ret (_hop_length (self w')) /\
  _n_mel (self w') = match nm with
                     | Some n => if n =? 0 then _n_mel (self w) else n
                     | None => _n_mel (self w)
                     end.
Proof.
  unfold apply_params, bind.
  destruct (set_win_ms run ms w) as [[[]|e] w1] eqn:E1; [|discriminate].
  destruct (set_overlap run ov w1) as [[[]|e] w2] eqn:E2; [|discriminate].
  destruct (set_win_ms_frame Arr run ms w) as (W1 & W2 & W3 & _ & W5 & _).
  rewrite E1 in W1, W2, W3, W5. simpl in W1, W2, W3, W5.
  destruct (set_overlap_frame Arr run ov w1) as (O1 & O2 & O3 & _ & O5 & _).
  rewrite E2 in O1, O2, O3, O5. simpl in O1, O2, O3, O5.
  assert (Hhop : round_div (inject_Z (_win_length (self w2))) ov
                 = Ret (_hop_length (self w2))).
  { destruct (round_div (inject_Z (_win_length (self w1))) ov) as [h|e] eqn:E.
    - destruct (set_overlap_hop Arr run ov h w1 E) as [Hh Hw].
      rewrite E2 in Hh, Hw. simpl in Hh, Hw. rewrite Hw, Hh. exact E.
    - destruct w1 as [s1 m1]. unfold set_overlap in E2. revert E2.
      cbv [bind rd lift]. simpl in *. rewrite E. discriminate. }
  assert (Hskip : (Ret tt, w2) = (Ret tt, w') ->
            _wav (self w') = _wav (self w) /\ _sr (self w') = _sr (self w) /\
            _win_length (self w') = win_length_of (_sr (self w)) ms /\
            round_div (inject_Z (_win_length (self w'))) ov
            = Ret (_hop_length (self w')) /\
            _n_mel (self w') = _n_mel (self w)).
  { intros H. inversion H; subst w'. repeat split; congruence. }
  destruct nm as [n|]; [|intros H; apply Hskip; exact H].
  destruct (n =? 0) eqn:En; [intros H; apply Hskip; exact H|].
  intros H.
  destruct (set_n_mel_frame Arr run n w2) as (N0 & N1 & N2 & N3 & N4 & _).
  rewrite H in N0, N1, N2, N3, N4. simpl in N0, N1, N2, N3, N4.
  rewrite N3, N4. repeat split; congruence.
Qed.

(** X11.  Right after construction, applying the parameters the engine was
    constructed with does nothing: no attribute changes and the library is
    not called. *)
Theorem apply_params_after_init_is_noop (wav : obj Arr) (sr : Z)
    (ms ov : Q) (n_mel : Z) (m m' : store Arr) (s : Spectrogram Arr) :
  __init__ ndim run wav sr ms ov n_mel m = (Ret s, m') ->
  apply_params run ms ov (Some n_mel) (World s m') = (Ret tt, World s m').
Proof.
  intros Hi.
  destruct (init_returns Arr ndim run _ _ _ _ _ _ _ _ Hi)
    as (Hsr & Hw & Hh & _ & Hn).
  unfold apply_params, bind.
  rewrite set_win_ms_unfold. cbv zeta. simpl.
  rewrite Hsr, Hw, Z.eqb_refl.
  rewrite (set_overlap_unfold Arr run ov (_hop_length s) (World s m'));
    [|simpl; rewrite Hw; exact Hh].
  simpl. rewrite Z.eqb_refl.
  destruct (n_mel =? 0); [reflexivity|].
  rewrite set_n_mel_unfold. simpl. rewrite Hn, Z.eqb_refl. reflexivity.
Qed.


(** What [refresh_heatmap] does on an engine with all products assigned. *)
Lemma refresh_heatmap_returns (fs : freq_scale) (w : world Arr)
    (d : Heatmap Arr) :
  products_allocated w ->
  exists d',
    refresh_heatmap fs (self w) d = (Ret tt, d') /\
    hm_x d' = t_axis (self w) /\
    hm_z d' = match fs with
              | scale_mel => mel (self w)
              | scale_linear => linear (self w)
              end /\
    hm_y d' = match fs with
              | scale_mel => None
              | scale_linear => f_linear_axis (self w)
              end /\
    hm_customdata d' = match fs, hm_y d with
                       | scale_mel, Some _ => f_mel_axis_str (self w)
                       | scale_linear, None => f_linear_axis_str (self w)
                       | _, _ => hm_customdata d
                       end /\
    hm_name d' = hm_name d.
Proof.
  intros Ha. apply products_allocated_iff in Ha.
  destruct Ha as ([o1 [E1 _]] & [o2 [E2 _]] & [o3 [E3 _]] & [o4 [E4 _]]
                  & [o5 [E5 _]] & [o6 [E6 _]] & [o7 [E7 _]] & [o8 [E8 _]]).
  unfold refresh_heatmap. rewrite E3.
  destruct fs; [rewrite E6 | rewrite E2]; simpl;
    destruct (hm_y d); rewrite ?E8, ?E5, ?E4; simpl;
    eexists; repeat split; reflexivity.
Qed.

(** X13.  On an engine that exists, bringing a heatmap up to date never
    fails.  Afterwards the heatmap shows the engine's current time axis and
    the current matrix of the chosen scale; its [y] is [None] on the mel
    scale and the linear frequency axis otherwise.  The label array is
    replaced only when the scale changes: on the same scale as before the
    heatmap keeps the label array it had. *)
Theorem refresh_heatmap_shows_engine (fs : freq_scale) (w : world Arr)
    (d : Heatmap Arr) :
  constructed ndim run w ->
  exists d',
    refresh_heatmap fs (self w) d = (Ret tt, d') /\
    hm_x d' = t_axis (self w) /\
    hm_z d' = match fs with
              | scale_mel => mel (self w)
              | scale_linear => linear (self w)
              end /\
    hm_y d' = match fs with
              | scale_mel => None
              | scale_linear => f_linear_axis (self w)
              end /\
    hm_customdata d' = match fs, hm_y d with
                       | scale_mel, Some _ => f_mel_axis_str (self w)
                       | scale_linear, None => f_linear_axis_str (self w)
                       | _, _ => hm_customdata d
                       end /\
    hm_name d' = hm_name d.
Proof.
  intros Hc. apply refresh_heatmap_returns.
  apply (constructed_products_allocated Arr ndim run w Hc).
Qed.

(** X14.  The labels of a heatmap go stale.  A heatmap on the mel scale,
    brought up to date after [set_n_mel] changed the number of mel bands
    to [n], shows the mel matrix for [n] bands, but keeps the label array
    it had, while the engine's own label array is now the one for [n]
    bands. *)
Theorem heatmap_labels_go_stale (n : Z) (w w' : world Arr) (d : Heatmap Arr) :
  constructed ndim run w ->
  hm_y d = None ->
  n <> _n_mel (self w) ->
  set_n_mel run n w = (Ret tt, w') ->
  exists d',
    refresh_heatmap scale_mel (self w') d = (Ret tt, d') /\
    hm_customdata d' = hm_customdata d /\
    exists sp t m ax lab,
      option_map val (_spec (self w)) = Some sp /\
      option_map val (t_axis (self w)) = Some t /\
      expected_mel run (with_n_mel n (self w)) sp t = Some (m, ax, lab) /\
      option_map val (hm_z d') = Some m /\
      option_map val (f_mel_axis_str (self w')) = Some lab.
Proof.
  intros Hc Hy Hn Hs.
  pose proof (constructed_products_allocated Arr ndim run w Hc) as Ha.
  pose proof (set_n_mel_alloc Arr run n w Ha) as Ha'.
  rewrite Hs in Ha'. simpl in Ha'.
  destruct (refresh_heatmap_returns scale_mel w' d Ha')
    as (d' & Hr & _ & Hz & _ & Hc' & _).
  rewrite Hy in Hc'.
  exists d'. split; [exact Hr|]. split; [exact Hc'|].
  rewrite set_n_mel_unfold in Hs.
  destruct (n =? _n_mel (self w)) eqn:E;
    [apply Z.eqb_eq in E; contradiction|].
  destruct (update_mel_values Arr run _ w' Hs)
    as (sp & t & mv & ax & lab & H1 & H2 & H3 & H4 & _ & H6).
  simpl in H1, H2, H3.
  exists sp, t, mv, ax, lab. rewrite Hz. repeat split; assumption.
Qed.

Lemma refresh_heatmap_ret (fs : freq_scale) (s : Spectrogram Arr)
    (d d' : Heatmap Arr) :
  refresh_heatmap fs s d = (Ret tt, d') ->
  hm_x d' = t_axis s /\
  hm_z d' = match fs with
            | scale_mel => mel s
            | scale_linear => linear s
            end.
Proof.
  unfold refresh_heatmap.
  destruct (t_axis s); [|discriminate].
  destruct fs.
  - destruct (mel s); [|discriminate]. simpl.
    destruct (hm_y d); [destruct (f_mel_axis_str s); [|discriminate]|];
      intros H; inversion H; split; reflexivity.
  - destruct (linear s); [|discriminate]. simpl.
    destruct (hm_y d).
    + destruct (f_linear_axis s); [|discriminate].
      intros H; inversion H; split; reflexivity.
    + destruct (f_linear_axis_str s); [|discriminate].
      destruct (f_linear_axis s); [|discriminate].
      intros H; inversion H; split; reflexivity.
Qed.


End UpdateFacts.

(** * More properties of the upload path *)

(** X16.  The thread cap is never below 2.  It keeps the batch within the
    machine, [cap * C <= cpu_count], exactly when there are at most
    [cpu_count / 2] files; with more files every job still gets 2 threads
    and the batch asks for more threads than there are processors. *)
Theorem thread_cap_bounds (contents : Type) (cpu_count : Z)
    (contents_list : list contents) :
  contents_list <> [] -> 1 <= cpu_count ->
  let C := Z.of_nat (length contents_list) in
  let cap := n_threads_of cpu_count contents_list in
  2 <= cap /\
  (2 * C <= cpu_count -> cap * C <= cpu_count) /\
  (cpu_count < 2 * C -> cap = 2 /\ cpu_count < cap * C).
Proof.
  intros Hne Hcpu C cap.
  assert (HC : 1 <= C).
  { subst C. destruct contents_list; [contradiction|]. simpl length. lia. }
  subst cap. unfold n_threads_of. fold C.
  pose proof (Z.div_mod cpu_count C ltac:(lia)) as Hd.
  pose proof (Z.mod_pos_bound cpu_count C ltac:(lia)) as Hm.
  split; [lia|]. split.
  - intros H. assert (2 <= cpu_count / C) by nia. nia.
  - intros H. assert (cpu_count / C <= 1) by nia. lia.
Qed.

Lemma append_same_prefix (a b c : string) :
  (a ++ b = a ++ c)%string -> b = c.
Proof.
  induction a as [|x a IH]; simpl; intros H; [exact H|].
  inversion H. apply IH. assumption.
Qed.

(** X17.  [update_n_fft] rewrites labels only: the values of the dropdown
    and their order are kept, and doing it twice is doing it once.  With no
    engine loaded the options come back as they are.  Otherwise an entry
    carries the plain label of its value exactly when it is not the
    selected one, and the selected entries carry the FFT size of the first
    engine. *)
Theorem update_n_fft_labels (Arr : Type) (specs : list (Spectrogram Arr))
    (options : list dropdown_option) (value : Z) :
  map opt_value (update_n_fft specs options value) = map opt_value options /\
  update_n_fft specs (update_n_fft specs options value) value
  = update_n_fft specs options value /\
  (specs = [] -> update_n_fft specs options value = options) /\
  (forall s0 rest, specs = s0 :: rest ->
     Forall (fun o =>
               (opt_label o = (py_str (opt_value o) ++ " ms")%string
                <-> opt_value o <> value) /\
               (opt_value o = value ->
                opt_label o = (py_str value ++ " ms (n_fft: "
                               ++ py_str (_n_fft s0) ++ ")")%string))
       (update_n_fft specs options value)).
Proof.
  destruct specs as [|s0 rest]; simpl.
  - repeat split; try reflexivity. intros s0 rest H. discriminate H.
  - split; [|split; [|split]].
    + rewrite map_map. apply map_ext. intros o.
      destruct (opt_value o =? value); reflexivity.
    + rewrite map_map. apply map_ext. intros o.
      destruct (opt_value o =? value) eqn:E; simpl; rewrite E; reflexivity.
    + intros H. discriminate H.
    + intros s1 rest1 H. inversion H; subst s1 rest1; clear H.
      apply Forall_forall. intros o Ho.
      apply in_map_iff in Ho. destruct Ho as [o0 [<- _]].
      destruct (opt_value o0 =? value) eqn:E; simpl.
      * apply Z.eqb_eq in E. split; [|intros _; reflexivity].
        split; [|intros Hne; contradiction].
        rewrite E. intros Heq. apply append_same_prefix in Heq.
        discriminate Heq.
      * apply Z.eqb_neq in E. split; [|intros Heq; contradiction].
        split; [intros _; exact E | intros _; reflexivity].
Qed.

Section MoreViewerFacts.

Variable Arr : Type.
Variable ndim : Arr -> nat.
Variable run : call Arr -> option Arr.
Variable contents : Type.
Variable b64decode : contents -> outcome contents.
Variable sf_read : contents -> option (Arr * Z).
Variable peak : Arr -> option Q.

(** X21.  The three ways a job ends.  It returns the placeholder only when
    the bytes did not decode, and then nothing was computed.  It returns an
    engine only when they decoded: the engine is a constructed one with the
    decoded sample rate, the scatter plot shows its waveform, and the
    heatmap shows the mel scale ([y] is [None]) exactly when that scale was
    asked for.  And when the bytes decode but construction raises, the job
    raises that exception: there is no placeholder for it. *)
Theorem parse_contents_outcomes (j : job contents) (m : store Arr) :
  (forall m',
     parse_contents ndim run b64decode sf_read j m = (Ret ErrorDiv, m') ->
     m' = m /\
     exists decoded, b64decode (job_contents j) = Ret decoded /\
                     sf_read decoded = None) /\
  (forall spec hm sc m',
     parse_contents ndim run b64decode sf_read j m
     = (Ret (Parsed spec hm sc), m') ->
     (exists decoded samples,
        b64decode (job_contents j) = Ret decoded /\
        sf_read decoded = Some (samples, _sr spec)) /\
     constructed ndim run (World spec m') /\
     sc_y sc = _wav spec /\ hm_x hm = t_axis spec /\
     hm_z hm = match job_freq_scale j with
               | scale_mel => mel spec
               | scale_linear => linear spec
               end /\
     (hm_y hm = None <-> job_freq_scale j = scale_mel)) /\
  (forall decoded samples sr e m1,
     b64decode (job_contents j) = Ret decoded ->
     sf_read decoded = Some (samples, sr) ->
     __init__ ndim run (Obj (next_id m) samples) sr (job_win_ms j)
       (job_overlap j) (job_n_mel j) (Store (S (next_id m)) (trace m))
     = (Raise e, m1) ->
     parse_contents ndim run b64decode sf_read j m = (Raise e, m1)).
Proof.
  unfold parse_contents. split; [|split].
  - intros m'.
    destruct (b64decode (job_contents j)) as [decoded|e]; [|discriminate].
    destruct (sf_read decoded) as [[samples sr]|] eqn:Es.
    + destruct (__init__ _ _ _ _ _ _ _ _) as [[s|e] m1]; discriminate.
    + intros H. inversion H. split; [reflexivity|].
      exists decoded. split; [reflexivity | exact Es].
  - intros spec hm sc m'.
    destruct (b64decode (job_contents j)) as [decoded|e]; [|discriminate].
    destruct (sf_read decoded) as [[samples sr]|] eqn:Es; [|discriminate].
    destruct (__init__ _ _ _ _ _ _ _ _) as [[s|e] m1] eqn:Ei; [|discriminate].
    intros H. inversion H; subst; clear H.
    pose proof (constructed_init Arr ndim run _ _ _ _ _ _ _ _ Ei) as Hc.
    destruct (init_returns Arr ndim run _ _ _ _ _ _ _ _ Ei) as (Hsr & _).
    split; [exists decoded, samples; split; [reflexivity|]; rewrite Hsr;
            exact Es|].
    split; [exact Hc|]. simpl.
    split; [reflexivity|]. split; [reflexivity|].
    pose proof (constructed_products_allocated Arr ndim run _ Hc) as Ha.
    apply products_allocated_iff in Ha.
    destruct Ha as (_ & _ & _ & [o [Eo _]] & _). simpl in Eo.
    destruct (job_freq_scale j); simpl.
    + split; [reflexivity|]. split; reflexivity.
    + split; [reflexivity|]. rewrite Eo. split; discriminate.
  - intros decoded samples sr e m1 Hd Hs Hi. rewrite Hd, Hs, Hi. reflexivity.
Qed.

Lemma combine_snd_firstn {A B} (la : list A) (lb : list B) :
  map snd (combine la lb) = firstn (length la) lb.
Proof.
  revert lb. induction la as [|a la IH]; intros [|b lb]; simpl;
    try reflexivity.
  f_equal. apply IH.
Qed.

(** The loop on well-formed results, from any accumulator. *)
Lemma collect_returns (zipped : list (string * parsed Arr))
    (acc0 : collected Arr) :
  Forall (fun t => match snd t with
                   | Parsed spec _ _ => peak (val (_wav spec)) <> None
                   | ErrorDiv => False
                   end) zipped ->
  exists acc new,
    collect peak zipped acc0 = (Ret tt, acc) /\
    specs acc = specs acc0 ++ new /\
    Forall2 (fun s t => exists hm sc, t = Parsed s hm sc) new
      (map snd zipped) /\
    length (plots acc) = (length (plots acc0) + length new)%nat /\
    (max_amp acc0 <= max_amp acc)%Q /\
    Forall (fun s => forall a, peak (val (_wav s)) = Some a ->
                               (a <= max_amp acc)%Q) new.
Proof.
  revert acc0. induction zipped as [|[ann t] rest IH]; intros acc0 Hok.
  - exists acc0, []. simpl. rewrite app_nil_r.
    repeat split; try constructor. lia. apply Qle_refl.
  - inversion Hok as [|x xs Hx Hrest]; subst. simpl in Hx.
    destruct t as [|spec hm sc]; [contradiction|].
    simpl. destruct (peak (val (_wav spec))) as [amp|] eqn:Ep;
      [|contradiction].
    match goal with
    | |- context [collect peak rest ?A] =>
        destruct (IH A Hrest) as (acc & new & Hc & Hs & Hf & Hp & Hm & Hb)
    end.
    simpl in Hs, Hp, Hm.
    exists acc, (spec :: new). split; [exact Hc|].
    split; [rewrite Hs, <- app_assoc; reflexivity|].
    split; [constructor; [exists hm, sc; reflexivity | exact Hf]|].
    split; [rewrite Hp, length_app; simpl; lia|].
    assert (Hstep : (max_amp acc0 <= max_amp acc)%Q /\ (amp <= max_amp acc)%Q).
    { destruct (Qlt_le_dec (max_amp acc0) amp) as [Hlt|Hle].
      - split; [|exact Hm].
        apply Qle_trans with amp; [apply Qlt_le_weak; exact Hlt | exact Hm].
      - split; [exact Hm|]. apply Qle_trans with (max_amp acc0); assumption. }
    split; [apply Hstep|].
    constructor; [|exact Hb].
    intros a Ha. rewrite Ep in Ha. inversion Ha; subst a. apply Hstep.
Qed.

(** X22.  When every job returned an engine whose waveform has a peak, the
    loop that takes the results apart returns: the engines it keeps are
    those of the results, in the order of the results, as many as there are
    annotations to pair them with; it keeps one pair of plots per engine;
    and [max_amp] is not negative and bounds the peak of every engine
    kept. *)
Theorem collect_keeps_order (annotations : list string)
    (tup_list : list (parsed Arr)) :
  Forall (fun t => match t with
                   | Parsed spec _ _ => peak (val (_wav spec)) <> None
                   | ErrorDiv => False
                   end) tup_list ->
  exists acc,
    collect_results peak annotations tup_list = (Ret tt, acc) /\
    Forall2 (fun s t => exists hm sc, t = Parsed s hm sc) (specs acc)
      (firstn (length annotations) tup_list) /\
    length (plots acc) = length (specs acc) /\
    (0 <= max_amp acc)%Q /\
    Forall (fun s => forall a, peak (val (_wav s)) = Some a ->
                               (a <= max_amp acc)%Q) (specs acc).
Proof.
  intros Hok. unfold collect_results.
  assert (Hz : Forall (fun t => match snd t with
                                | Parsed spec _ _ =>
                                    peak (val (_wav spec)) <> None
                                | ErrorDiv => False
                                end) (combine annotations tup_list)).
  { apply Forall_forall. intros [a t] Hin. simpl.
    apply in_combine_r in Hin.
    rewrite Forall_forall in Hok. exact (Hok t Hin). }
  destruct (collect_returns _ (Collected [] 0 [] []) Hz)
    as (acc & new & Hc & Hs & Hf & Hp & Hm & Hb).
  simpl in Hs, Hp, Hm. subst new.
  exists acc. split; [exact Hc|].
  rewrite combine_snd_firstn in Hf.
  repeat split; assumption.
Qed.

End MoreViewerFacts.

Section ConstructionErrors.

Variable Arr : Type.
Variable ndim : Arr -> nat.
Variable run : call Arr -> option Arr.

(** X23.  What construction can raise: the library's errors;
    [ZeroDivisionError], only for an overlap of zero or a derived window
    length of zero; and [ValueError], only for a negative derived window
    length.  In particular it never fails on a missing attribute, and with
    an overlap other than zero and a window of at least one sample only the
    library can make it fail. *)
Theorem init_errors (wav : obj Arr) (sr : Z) (ms ov : Q) (n_mel : Z)
    (m : store Arr) (e : exn) :
  fst (__init__ ndim run wav sr ms ov n_mel m) = Raise e ->
  e = LibraryError \/
  (e = ZeroDivisionError /\ ((ov == 0)%Q \/ win_length_of sr ms = 0)) \/
  (e = ValueError /\ win_length_of sr ms < 0).
Proof.
  unfold __init__.
  destruct (if (1 <? ndim (val wav))%nat
            then lib_call run (np_mean_axis1 (val wav)) m
            else (Ret wav, m)) as [[mono|e0] m1] eqn:Em.
  - destruct (round_div (inject_Z (win_length_of sr ms)) ov) as [h|e1] eqn:Er.
    + destruct (n_fft_of (win_length_of sr ms)) as [n|e2] eqn:En.
      * match goal with
        | |- context [_update_linear run ?W] =>
            pose proof (update_linear_errors Arr run W) as He;
            destruct (_update_linear run W) as [[u|e3] w1]
        end; simpl; [discriminate|].
        intros H. inversion H; subst e3.
        destruct (He e eq_refl) as [H1 | [H1 H2]];
          [left; exact H1 | right; left; split; [exact H1 | right; exact H2]].
      * simpl. intros H. inversion H; subst e2.
        unfold n_fft_of in En.
        destruct (win_length_of sr ms <? 0) eqn:El.
        -- inversion En. right. right. split; [reflexivity|].
           apply Z.ltb_lt. exact El.
        -- destruct (win_length_of sr ms =? 0); discriminate En.
    + simpl. intros H. inversion H; subst e1.
      unfold round_div, py_truediv in Er.
      destruct (Qeq_bool ov 0) eqn:Ev; [|discriminate Er].
      inversion Er. right. left. split; [reflexivity|]. left.
      apply Qeq_bool_iff. exact Ev.
  - simpl. intros H. inversion H; subst e0.
    destruct (1 <? ndim (val wav))%nat; [|discriminate Em].
    unfold lib_call in Em.
    destruct (run (np_mean_axis1 (val wav))); inversion Em. left. reflexivity.
Qed.

End ConstructionErrors.

(** * The further properties, run *)

Lemma win_ms_round_trip_witness :
  1000 <= _sr (self demo_world) /\
  fst (win_ms (snd (set_win_ms sym_run (inject_Z 30) demo_world))) = Ret 30.
Proof.
  assert (H : 1000 <= _sr (self demo_world)) by (vm_compute; discriminate).
  split; [exact H|].
  exact (win_ms_round_trip sym sym_run demo_world 30 H).
Defined.

Lemma overlap_read_back_exact_witness :
  0 < 8 /\
  fst (overlap (snd (set_overlap sym_run (inject_Z 8) demo_world))) = Ret 8.
Proof.
  assert (H : 0 < 8) by reflexivity.
  split; [exact H|].
  apply (overlap_read_back_exact sym sym_run demo_world 8 H).
  right. split; [vm_compute; reflexivity|]. exists 5. vm_compute. reflexivity.
Defined.

Lemma hop_length_zero_iff_witness :
  0 < 80 /\ 0 <= _win_length (self demo_world) /\
  _hop_length (self (snd (set_overlap sym_run (inject_Z 80) demo_world))) = 0.
Proof.
  assert (H1 : 0 < 80) by reflexivity.
  assert (H2 : 0 <= _win_length (self demo_world))
    by (vm_compute; discriminate).
  split; [exact H1|]. split; [exact H2|].
  apply (hop_length_zero_iff sym sym_run demo_world 80 H1 H2).
  vm_compute. discriminate.
Defined.

Lemma fft_size_below_twice_window_witness :
  constructed sym_ndim sym_run demo_world /\
  1 <= _win_length (self demo_world) /\
  float_exact (_win_length (self demo_world)) /\
  _win_length (self demo_world) <= _n_fft (self demo_world)
  < 2 * _win_length (self demo_world).
Proof.
  assert (H : 1 <= _win_length (self demo_world))
    by (vm_compute; discriminate).
  assert (Hf : float_exact (_win_length (self demo_world)))
    by (vm_compute; reflexivity).
  split; [exact demo_world_constructed|]. split; [exact H|].
  split; [exact Hf|].
  exact (fft_size_below_twice_window sym sym_ndim sym_run demo_world
           demo_world_constructed H Hf).
Defined.

(** [set_overlap(100)] raises on the demonstration engine; called again, it
    returns as if nothing were wrong. *)
Lemma setters_idempotent_witness :
  ~ (100 == 0)%Q /\
  fst (set_overlap sym_run 100 demo_world) = Raise LibraryError /\
  fst (set_overlap sym_run 100 (snd (set_overlap sym_run 100 demo_world)))
  = Ret tt.
Proof.
  assert (H : ~ (100 == 0)%Q) by (vm_compute; discriminate).
  split; [exact H|]. split; [vm_compute; reflexivity|].
  destruct (setters_idempotent sym sym_run demo_world) as (_ & Ho & _).
  rewrite (Ho 100%Q H). reflexivity.
Defined.

Lemma constructed_engine_is_complete_witness :
  constructed sym_ndim sym_run demo_world /\
  products_allocated demo_world /\ _floor_db (self demo_world) = -120.
Proof.
  split; [exact demo_world_constructed|].
  exact (constructed_engine_is_complete sym sym_ndim sym_run demo_world
           demo_world_constructed).
Defined.

Lemma recomputed_products_are_new_objects_witness :
  constructed sym_ndim sym_run demo_world /\
  linear (self (snd (set_overlap sym_run 8 demo_world)))
  <> linear (self demo_world).
Proof.
  split; [exact demo_world_constructed|].
  destruct (recomputed_products_are_new_objects sym sym_ndim sym_run
              demo_world (snd (set_overlap sym_run 8 demo_world))
              demo_world_constructed) as (Ho & _).
  assert (Hf : Forall2 (fun p q => p <> q)
                 (products (self (snd (set_overlap sym_run 8 demo_world))))
                 (products (self demo_world))).
  { apply (Ho 8%Q); [vm_compute; reflexivity | vm_compute; discriminate]. }
  unfold products in Hf.
  apply Forall2_cons_iff in Hf. destruct Hf as [_ Hf].
  apply Forall2_cons_iff in Hf. destruct Hf as [Hlin _]. exact Hlin.
Defined.

Lemma init_mixes_to_mono_witness :
  __init__ sym_ndim sym_run demo_wav 8000 5 4 128 (Store 1 [])
  = (Ret (self demo_world), mem demo_world) /\
  _wav (self demo_world) = demo_wav.
Proof.
  split; [exact demo_world_init|].
  apply (proj1 (init_mixes_to_mono sym sym_ndim sym_run _ _ _ _ _ _ _ _
                  demo_world_init)).
  vm_compute. lia.
Defined.

Lemma cache_stays_up_to_date_witness :
  up_to_date sym_run (self demo_world) /\
  up_to_date sym_run (self (snd (set_n_mel sym_run 64 demo_world))).
Proof.
  destruct (cache_stays_up_to_date sym sym_ndim sym_run) as [Hinit Hkeep].
  assert (H : up_to_date sym_run (self demo_world))
    by exact (Hinit _ _ _ _ _ _ _ _ demo_world_init).
  split; [exact H|].
  destruct (Hkeep demo_world (snd (set_n_mel sym_run 64 demo_world)) H)
    as (_ & _ & Hn).
  apply (Hn 64). vm_compute. reflexivity.
Defined.

Lemma setter_errors_witness :
  constructed sym_ndim sym_run demo_world /\
  fst (set_overlap sym_run 100 demo_world) = Raise LibraryError.
Proof.
  split; [exact demo_world_constructed|].
  destruct (setter_errors sym sym_ndim sym_run demo_world
              match fst (set_overlap sym_run 100 demo_world) with
              | Raise e => e
              | Ret _ => ValueError
              end) as (_ & Ho & _).
  destruct (Ho 100%Q) as [H | [H _]].
  - vm_compute. reflexivity.
  - vm_compute. reflexivity.
  - vm_compute in H. discriminate H.
Defined.

Lemma engine_life_invariants_witness :
  reaches sym_run demo_world (snd (set_win_ms sym_run 10 demo_world)) /\
  _wav (self (snd (set_win_ms sym_run 10 demo_world))) = demo_wav.
Proof.
  assert (H : reaches sym_run demo_world
                (snd (set_win_ms sym_run 10 demo_world))).
  { eapply reaches_win_ms with (v := 10%Q); [apply reaches_refl|].
    apply surjective_pairing. }
  split; [exact H|].
  destruct (engine_life_invariants sym sym_run _ _ H) as (Hw & _).
  rewrite Hw. vm_compute. reflexivity.
Defined.

Lemma apply_params_after_init_is_noop_witness :
  __init__ sym_ndim sym_run demo_wav 8000 5 4 128 (Store 1 [])
  = (Ret (self demo_world), mem demo_world) /\
  apply_params sym_run 5 4 (Some 128)
    (World (self demo_world) (mem demo_world))
  = (Ret tt, World (self demo_world) (mem demo_world)).
Proof.
  split; [exact demo_world_init|].
  exact (apply_params_after_init_is_noop sym sym_ndim sym_run _ _ _ _ _ _ _ _
           demo_world_init).
Defined.


Lemma refresh_heatmap_shows_engine_witness :
  constructed sym_ndim sym_run demo_world /\
  exists d',
    refresh_heatmap scale_linear (self demo_world) demo_heatmap
    = (Ret tt, d') /\
    hm_x d' = t_axis (self demo_world) /\
    hm_y d' = f_linear_axis (self demo_world).
Proof.
  split; [exact demo_world_constructed|].
  destruct (refresh_heatmap_shows_engine sym sym_ndim sym_run scale_linear
              demo_world demo_heatmap demo_world_constructed)
    as (d' & Hr & Hx & _ & Hy & _).
  exists d'. split; [exact Hr|]. split; [exact Hx | exact Hy].
Defined.

Lemma heatmap_labels_go_stale_witness :
  constructed sym_ndim sym_run demo_world /\
  hm_y demo_heatmap = None /\ 64 <> _n_mel (self demo_world) /\
  exists d',
    refresh_heatmap scale_mel (self (snd (set_n_mel sym_run 64 demo_world)))
      demo_heatmap = (Ret tt, d') /\
    hm_customdata d' = hm_customdata demo_heatmap.
Proof.
  assert (Hn : 64 <> _n_mel (self demo_world)) by (vm_compute; discriminate).
  split; [exact demo_world_constructed|]. split; [reflexivity|].
  split; [exact Hn|].
  destruct (heatmap_labels_go_stale sym sym_ndim sym_run 64 demo_world
              (snd (set_n_mel sym_run 64 demo_world)) demo_heatmap
              demo_world_constructed eq_refl Hn)
    as (d' & Hr & Hc & _).
  - vm_compute. reflexivity.
  - exists d'. split; [exact Hr | exact Hc].
Defined.


Lemma thread_cap_bounds_witness :
  demo_batch <> [] /\ 1 <= 4 /\
  n_threads_of 4 demo_batch = 2 /\ 4 < n_threads_of 4 demo_batch * 3.
Proof.
  assert (H1 : demo_batch <> []) by discriminate.
  assert (H2 : 1 <= 4) by lia.
  split; [exact H1|]. split; [exact H2|].
  destruct (thread_cap_bounds demo_contents 4 demo_batch H1 H2)
    as (_ & _ & Hover).
  apply Hover. vm_compute. reflexivity.
Defined.

Lemma collect_keeps_order_witness :
  exists acc,
    collect_results demo_peak ["a.wav"; "c.wav"]%string
      [nth 0 demo_tup_list ErrorDiv; nth 2 demo_tup_list ErrorDiv]
    = (Ret tt, acc) /\
    length (specs acc) = 2%nat.
Proof.
  destruct (collect_keeps_order sym demo_peak ["a.wav"; "c.wav"]%string
              [nth 0 demo_tup_list ErrorDiv; nth 2 demo_tup_list ErrorDiv])
    as (acc & Hc & Hf & _).
  - apply Forall_cons; [vm_compute; discriminate|].
    apply Forall_cons; [vm_compute; discriminate|]. apply Forall_nil.
  - exists acc. split; [exact Hc|].
    apply Forall2_length in Hf. rewrite Hf. reflexivity.
Defined.

Lemma init_errors_witness :
  fst (__init__ sym_ndim sym_run demo_wav 0 5 4 128 (Store 1 []))
  = Raise LibraryError /\
  (LibraryError = LibraryError \/
   (LibraryError = ZeroDivisionError /\
    ((4 == 0)%Q \/ win_length_of 0 5 = 0)) \/
   (LibraryError = ValueError /\ win_length_of 0 5 < 0)).
Proof.
  assert (H : fst (__init__ sym_ndim sym_run demo_wav 0 5 4 128 (Store 1 []))
              = Raise LibraryError) by (vm_compute; reflexivity).
  split; [exact H|].
  exact (init_errors sym sym_ndim sym_run demo_wav 0 5 4 128 (Store 1 [])
           LibraryError H).
Defined.
